(** * Streaming response decoder of the OpenAI Go client (http.go)

    A shallow embedding of the two stream sessions of [http.go]
    ([streamWithCtx] for chat completions, [streamResponsesWithCtx] for the
    responses API) and of the status handling that precedes them
    ([postCBWithContext], [postCBResponsesWithContext]).

    The callback is modelled by the list of its invocations, in call order.
    The scanner is modelled by the lines it yields and the error it reports
    once it stops; the cancellation context by what each poll of
    [ctx.Done()] observes.  [encoding/json] and [fmt] are libraries outside
    the repository: they enter as parameters. *)

From Stdlib Require Import ZArith List String Ascii Bool Lia.
From Stdlib Require Import DecimalString Permutation.
Import ListNotations.

Open Scope string_scope.
Open Scope list_scope.

(** ** Go values *)

(** [[]byte] values are character strings. *)
Definition bytes_t : Type := string.

(** A Go slice is either nil or a (possibly empty) sequence of elements. *)
Inductive slice (A : Type) : Type :=
| nil_slice
| mk_slice (l : list A).
Arguments nil_slice {A}.
Arguments mk_slice {A} l.

Definition elems {A} (s : slice A) : list A :=
  match s with
  | nil_slice => []
  | mk_slice l => l
  end.

Definition len {A} (s : slice A) : nat := List.length (elems s).

(** [append(s, x)]: the result is never nil. *)
Definition append {A} (s : slice A) (x : A) : slice A := mk_slice (elems s ++ [x]).

(** Go's [int], on the 64-bit platforms: a two's complement integer of 64
    bits; [toolIndex++] wraps around. *)
Definition int_wrap (z : Z) : Z := ((z + 2 ^ 63) mod 2 ^ 64 - 2 ^ 63)%Z.

Definition in_int_range (z : Z) : Prop := (- 2 ^ 63 <= z < 2 ^ 63)%Z.

(** The [*int] values a tool call can hold: a cell of its own (as the JSON
    decoder allocates) or the address of the session's [toolIndex] variable
    (line 143, [Index: &toolIndex]), which every call created by the session
    shares. *)
Inductive intptr : Type :=
| own_cell (v : Z)
| addr_toolIndex.

Definition deref (toolIndex : Z) (p : intptr) : Z :=
  match p with
  | own_cell v => v
  | addr_toolIndex => toolIndex
  end.

(** Go's [error] values met on these paths; [None] in [option error] is nil. *)
Inductive error : Type :=
| context_Canceled
| context_DeadlineExceeded
| errorString (msg : string).

Definition Error_text (e : error) : string :=
  match e with
  | context_Canceled => "context canceled"
  | context_DeadlineExceeded => "context deadline exceeded"
  | errorString msg => msg
  end.

(** ** The [bytes] package, as its source defines the functions used *)

Module bytes.

Definition Equal (a b : bytes_t) : bool := String.eqb a b.

(** [len(s) >= len(prefix) && Equal(s[:len(prefix)], prefix)] *)
Definition HasPrefix (s prefix : bytes_t) : bool :=
  (String.length prefix <=? String.length s)%nat
  && Equal (substring 0 (String.length prefix) s) prefix.

(** [len(s) >= len(suffix) && Equal(s[len(s)-len(suffix):], suffix)] *)
Definition HasSuffix (s suffix : bytes_t) : bool :=
  (String.length suffix <=? String.length s)%nat
  && Equal (substring (String.length s - String.length suffix)
                      (String.length suffix) s) suffix.

(** [s[n:]] *)
Definition from (n : nat) (s : bytes_t) : bytes_t :=
  substring n (String.length s - n) s.

Definition TrimPrefix (s prefix : bytes_t) : bytes_t :=
  if HasPrefix s prefix then from (String.length prefix) s else s.

End bytes.

Definition StreamData : bytes_t := "data: ".
Definition StreamDone : bytes_t := "[DONE]".

(** ** Payload types *)

Record ToolCallFunction : Type := {
  Name : string;
  Arguments : string
}.

(** Modelled from the spec: the declaration of [ToolCall] is not among the
    sources; the fields are the ones [streamWithCtx] reads and writes. *)
Record ToolCall : Type := {
  tcType : string;
  Index : option intptr;
  ID : string;
  Function : ToolCallFunction
}.

(** Modelled from the spec: the declaration of [ChatMessage] is not among the
    sources; [Content] stands for the content the decoder stored. *)
Record ChatMessage : Type := {
  Content : option string;
  ToolCalls : slice ToolCall
}.

(** Modelled from the spec: the declaration of [ChatCompletionChoice] is not
    among the sources. *)
Record ChatCompletionChoice : Type := {
  Delta : ChatMessage;
  Message : ChatMessage;
  FinishReason : string
}.

(** Modelled from the spec: the declaration of [ChatCompletion] is not among
    the sources; [ccType] is the embedded [CommonResponse.Type]. *)
Record ChatCompletion : Type := {
  ccType : option string;
  Choices : slice ChatCompletionChoice
}.

(** Modelled from the spec: the declaration of [ResponseStreamEvent] is not
    among the sources; [evData] stands for everything but the type tag. *)
Record ResponseStreamEvent : Type := {
  evType : string;
  evData : string
}.

(** Zero values. *)
Definition zero_ToolCallFunction : ToolCallFunction := {| Name := ""; Arguments := "" |}.
Definition zero_ChatMessage : ChatMessage := {| Content := None; ToolCalls := nil_slice |}.
Definition zero_ChatCompletion : ChatCompletion := {| ccType := None; Choices := nil_slice |}.
Definition zero_ResponseStreamEvent : ResponseStreamEvent := {| evType := ""; evData := "" |}.

(** One invocation of a delivery callback. *)
Record invocation (P : Type) : Type := cb {
  payload : P;
  done : bool;
  err : option error
}.
Arguments cb {P} payload done err.
Arguments payload {P} i.
Arguments done {P} i.
Arguments err {P} i.

(** What the scanner delivers from a response body: the lines for which
    [scanner.Scan()] is true, then [scanner.Err()]. *)
Record Scanned : Type := {
  lines : list bytes_t;
  scanErr : option error
}.

(** The cancellation context: [ctx n] is what the poll of iteration [n]
    observes, [Some e] when [ctx.Done()] is closed and [ctx.Err()] is [e]. *)
Definition Context : Type := nat -> option error.

(** How one pass through a loop body ends. *)
Inductive flow : Type :=
| Next
| Return.

(** ** The chat stream session, [streamWithCtx] *)

(** Local variables of [streamWithCtx] that live across iterations. *)
Record session : Type := {
  fn : ToolCall;
  toolIndex : Z;
  toolCalls : slice ToolCall
}.

(** Lines 95-99. *)
Definition session_init : session := {|
  fn := {| tcType := "function"; Index := None; ID := "";
           Function := zero_ToolCallFunction |};
  toolIndex := 0;
  toolCalls := mk_slice []
|}.

(** Line 140: [toolCall.Index != nil && *toolCall.Index != toolIndex]. *)
Definition index_changed (toolIndex : Z) (toolCall : ToolCall) : bool :=
  match Index toolCall with
  | Some p => negb (deref toolIndex p =? toolIndex)%Z
  | None => false
  end.

(** Lines 140-144. *)
Definition flush_on_index_change (toolCall : ToolCall) (st : session) : session :=
  if index_changed (toolIndex st) toolCall then
    {| fn := {| tcType := "function"; Index := Some addr_toolIndex; ID := "";
                Function := zero_ToolCallFunction |};
       toolIndex := int_wrap (toolIndex st + 1);
       toolCalls := append (toolCalls st) (fn st) |}
  else st.

Definition with_fn (st : session) (f : ToolCall) : session :=
  {| fn := f; toolIndex := toolIndex st; toolCalls := toolCalls st |}.

(** Lines 146-148. *)
Definition set_id (toolCall : ToolCall) (st : session) : session :=
  if negb (ID toolCall =? "") then
    with_fn st {| tcType := tcType (fn st); Index := Index (fn st);
                  ID := ID toolCall; Function := Function (fn st) |}
  else st.

(** Lines 150-154. *)
Definition set_name_or_arguments (toolCall : ToolCall) (st : session) : session :=
  if negb (Name (Function toolCall) =? "") then
    with_fn st {| tcType := tcType (fn st); Index := Index (fn st); ID := ID (fn st);
                  Function := {| Name := Name (Function toolCall);
                                 Arguments := Arguments (Function (fn st)) |} |}
  else if negb (Arguments (Function toolCall) =? "") then
    with_fn st {| tcType := tcType (fn st); Index := Index (fn st); ID := ID (fn st);
                  Function := {| Name := Name (Function (fn st));
                                 Arguments := Arguments (Function (fn st))
                                              ++ Arguments (Function toolCall) |} |}
  else st.

(** Lines 138-154: the assembler update for one fragment. *)
Definition assemble (toolCall : ToolCall) (st : session) : session :=
  set_name_or_arguments toolCall (set_id toolCall (flush_on_index_change toolCall st)).

(** Lines 137-138: [entry.Choices[0].Delta.ToolCalls[0]] when both slices
    are non-empty. *)
Definition first_fragment (entry : ChatCompletion) : option ToolCall :=
  match elems (Choices entry) with
  | c :: _ =>
      match elems (ToolCalls (Delta c)) with
      | toolCall :: _ => Some toolCall
      | [] => None
      end
  | [] => None
  end.

(** Lines 157-158. *)
Definition finish_reached (entry : ChatCompletion) (st : session) : bool :=
  match elems (Choices entry) with
  | c :: _ =>
      (FinishReason c =? "tool_calls")
      || ((FinishReason c =? "stop") && negb (ID (fn st) =? ""))
  | [] => false
  end.

(** Line 161: [entry.Choices[0].Message.ToolCalls = toolCalls]. *)
Definition attach_tool_calls (entry : ChatCompletion) (tcs : slice ToolCall)
  : ChatCompletion :=
  match Choices entry with
  | mk_slice (c :: cs) =>
      {| ccType := ccType entry;
         Choices := mk_slice ({| Delta := Delta c;
                                 Message := {| Content := Content (Message c);
                                               ToolCalls := tcs |};
                                 FinishReason := FinishReason c |} :: cs) |}
  | _ => entry
  end.

(** Lines 129-133. *)
Definition is_ping (entry : ChatCompletion) : bool :=
  match ccType entry with
  | Some entryType => entryType =? "ping"
  | None => false
  end.

(** Lines 117-119. *)
Definition placeholder_choices : slice ChatCompletionChoice :=
  mk_slice [ {| Delta := zero_ChatMessage;
                Message := {| Content := None; ToolCalls := mk_slice [] |};
                FinishReason := "" |} ].

Section Chat.

(** [json.Unmarshal(data, &entry)]: the value left in [entry] and the
    error returned. *)
Variable json_Unmarshal : bytes_t -> ChatCompletion -> ChatCompletion * option error.

(** Lines 129-168: a chunk that decoded without error. *)
Definition handle_entry (entry : ChatCompletion) (st : session)
  : list (invocation ChatCompletion) * session * flow :=
  if is_ping entry then ([], st, Next)
  else
    let st :=
      match first_fragment entry with
      | Some toolCall => assemble toolCall st
      | None => st
      end in
    if finish_reached entry st then
      let st := {| fn := fn st; toolIndex := toolIndex st;
                   toolCalls := append (toolCalls st) (fn st) |} in
      let entry := attach_tool_calls entry (toolCalls st) in
      ([cb entry false None; cb entry true None], st, Return)
    else ([cb entry false None], st, Next).

(** Lines 101-169: one pass through the loop body, for the line [b];
    [polled] is what the cancellation poll observes. *)
Definition iteration (polled : option error) (b : bytes_t) (st : session)
  : list (invocation ChatCompletion) * session * flow :=
  match polled with
  | Some e => ([cb zero_ChatCompletion true (Some e)], st, Return)
  | None =>
      let entry := zero_ChatCompletion in
      if (String.length b =? 0)%nat then ([], st, Next)
      else if bytes.HasPrefix b StreamData then
        if bytes.HasSuffix b StreamDone then
          let entry :=
            if (len (Choices entry) <=? 0)%nat
            then {| ccType := ccType entry; Choices := placeholder_choices |}
            else entry in
          ([cb entry true None], st, Return)
        else
          match json_Unmarshal (bytes.from (String.length StreamData) b) entry with
          | (entry, Some e) => ([cb entry true (Some e)], st, Return)
          | (entry, None) => handle_entry entry st
          end
      else ([], st, Next)
  end.

(** Lines 100-170: the loop over the scanned lines, from iteration [n]. *)
Fixpoint scan_loop (ctx : Context) (n : nat) (ls : list bytes_t) (st : session)
  : list (invocation ChatCompletion) * session * flow :=
  match ls with
  | [] => ([], st, Next)
  | b :: rest =>
      match iteration (ctx n) b st with
      | (out, st', Return) => (out, st', Return)
      | (out, st', Next) =>
          match scan_loop ctx (S n) rest st' with
          | (out', st'', fl) => (out ++ out', st'', fl)
          end
      end
  end.

(** Lines 92-175: the invocations of [cb], in order, and the final
    values of the locals. *)
Definition streamWithCtx_run (ctx : Context) (res : Scanned)
  : list (invocation ChatCompletion) * session :=
  match scan_loop ctx 0 (lines res) session_init with
  | (out, st, Return) => (out, st)
  | (out, st, Next) =>
      match scanErr res with
      | Some e => (out ++ [cb zero_ChatCompletion true (Some e)], st)
      | None => (out, st)
      end
  end.

Definition streamWithCtx (ctx : Context) (res : Scanned)
  : list (invocation ChatCompletion) :=
  fst (streamWithCtx_run ctx res).

End Chat.

(** ** The responses stream session, [streamResponsesWithCtx] *)

(** Line 279. *)
Definition is_completion_event (event : ResponseStreamEvent) : bool :=
  (evType event =? "response.completed")
  || (evType event =? "response.failed")
  || (evType event =? "response.cancelled").

Section Responses.

(** [json.Unmarshal(dataBytes, &event)]. *)
Variable json_Unmarshal_event :
  bytes_t -> ResponseStreamEvent -> ResponseStreamEvent * option error.

(** Lines 243-285: one pass through the loop body. *)
Definition responses_iteration (polled : option error) (b : bytes_t)
  : list (invocation ResponseStreamEvent) * flow :=
  match polled with
  | Some e => ([cb zero_ResponseStreamEvent true (Some e)], Return)
  | None =>
      if (String.length b =? 0)%nat then ([], Next)
      else if bytes.HasPrefix b "event:" then ([], Next)
      else if bytes.HasPrefix b "data: " then
        let dataBytes := bytes.TrimPrefix b "data: " in
        if bytes.Equal dataBytes "[DONE]" then
          ([cb zero_ResponseStreamEvent true None], Return)
        else
          match json_Unmarshal_event dataBytes zero_ResponseStreamEvent with
          | (_, Some e) => ([cb zero_ResponseStreamEvent true (Some e)], Return)
          | (event, None) =>
              let done := is_completion_event event in
              ([cb event done None], if done then Return else Next)
          end
      else ([], Next)
  end.

(** Lines 242-286. *)
Fixpoint responses_loop (ctx : Context) (n : nat) (ls : list bytes_t)
  : list (invocation ResponseStreamEvent) * flow :=
  match ls with
  | [] => ([], Next)
  | b :: rest =>
      match responses_iteration (ctx n) b with
      | (out, Return) => (out, Return)
      | (out, Next) =>
          match responses_loop ctx (S n) rest with
          | (out', fl) => (out ++ out', fl)
          end
      end
  end.

(** Lines 238-292. *)
Definition streamResponsesWithCtx (ctx : Context) (res : Scanned)
  : list (invocation ResponseStreamEvent) :=
  match responses_loop ctx 0 (lines res) with
  | (out, Return) => out
  | (out, Next) =>
      match scanErr res with
      | Some e => out ++ [cb zero_ResponseStreamEvent true (Some e)]
      | None => out
      end
  end.

End Responses.

(** ** Status handling before the stream starts *)

(** Line 38. *)
Definition isSuccessStatus (code : Z) : bool :=
  ((200 <=? code) && (code <? 300))%Z.

(** A value of Go's [any], as far as [Error.Param] and the map of
    [Error.err] hold one. *)
Inductive any : Type :=
| any_string (s : string)
| any_json (raw : string).

(** Lines 50-55; a nil [Param] or [Code] is [None]. *)
Record Error : Type := {
  eMessage : string;
  eType : string;
  eParam : option any;
  eCode : option string
}.

(** Lines 58-61. *)
Record GeminiError : Type := {
  gMessage : string;
  gCode : Z
}.

Definition zero_Error : Error :=
  {| eMessage := ""; eType := ""; eParam := None; eCode := None |}.

(** The response as the two callers use it: its status code, what
    [io.ReadAll(resp.Body)] returns, and what a scanner over the body
    delivers. *)
Record Response : Type := {
  StatusCode : Z;
  ReadAll : bytes_t + error;
  Body : Scanned
}.

(** What a call of [postCB...WithContext] does: it returns [(response, err)],
    having started the stream session ([go stream...]) or not, or it panics. *)
Inductive outcome : Type :=
| Returns (response : option bytes_t) (e : option error) (streaming : bool)
| Panics (msg : string).

Section Post.

(** [fmt.Sprintf(format)] with no operands. *)
Variable fmt_Sprintf : string -> string.
(** [json.Marshal] and [fmt.Sprintf("%+v", _)] on the map of [Error.err]. *)
Variable json_Marshal : list (string * any) -> bytes_t + error.
Variable fmt_Sprintf_v : list (string * any) -> string.
(** [json.Unmarshal] into the single-object wrapper [struct{Error Error}] and
    into the array wrapper [[]struct{Error GeminiError}]. *)
Variable json_Unmarshal_errbody : bytes_t -> Error -> Error * option error.
Variable json_Unmarshal_gemini :
  bytes_t -> slice GeminiError -> slice GeminiError * option error.
(** [json.NewDecoder(resp.Body).Decode(&errbody)]. *)
Variable json_Decode_errbody : Response -> Error -> Error * option error.

Definition fmt_Errorf (format : string) : error := errorString (fmt_Sprintf format).

(** Lines 73-90. *)
Definition Error_err (e : Error) : error :=
  let es := [("type", any_string (eType e)); ("message", any_string (eMessage e))] in
  let es := match eCode e with
            | Some c => es ++ [("code", any_string c)]
            | None => es
            end in
  let es := match eParam e with
            | Some p => es ++ [("param", p)]
            | None => es
            end in
  match json_Marshal es with
  | inl bs => fmt_Errorf bs
  | inr _ => fmt_Errorf (fmt_Sprintf_v es)
  end.

(** Lines 540-573 of [postCBWithContext], from the result of
    [c.httpClient.Do(req)] on. *)
Definition postCBWithContext (sent : Response + error) : outcome :=
  match sent with
  | inr e => Returns None (Some e) false
  | inl resp =>
      if negb (isSuccessStatus (StatusCode resp)) then
        match ReadAll resp with
        | inl response =>
            match json_Unmarshal_errbody response zero_Error with
            | (_, Some _) =>
                match json_Unmarshal_gemini response (mk_slice []) with
                | (_, Some e) =>
                    Returns None
                      (Some (errorString ("failed to decode error body: " ++ Error_text e)))
                      false
                | (geminiErr, None) =>
                    match elems geminiErr with
                    | g :: _ => Returns None (Some (fmt_Errorf (gMessage g))) false
                    | [] => Panics "index out of range [0] with length 0"
                    end
                end
            | (errbody, None) => Returns None (Some (Error_err errbody)) false
            end
        | inr e => Returns None (Some e) false
        end
      else Returns None None true
  end.

(** Lines 216-234 of [postCBResponsesWithContext]. *)
Definition postCBResponsesWithContext (sent : Response + error) : outcome :=
  match sent with
  | inr e => Returns None (Some e) false
  | inl resp =>
      if negb (isSuccessStatus (StatusCode resp)) then
        match json_Decode_errbody resp zero_Error with
        | (_, Some e) =>
            Returns None
              (Some (errorString ("failed to decode error body: " ++ Error_text e)))
              false
        | (errbody, None) => Returns None (Some (Error_err errbody)) false
        end
      else Returns None None true
  end.

End Post.

(** ** Vocabulary of the properties *)

(** The number of invocations with [done = true] in a trace. *)
Definition terminal_count {P} (tr : list (invocation P)) : nat :=
  List.length (filter done tr).

(** No invocation follows one with [done = true]. *)
Definition nothing_after_terminal {P} (tr : list (invocation P)) : Prop :=
  forall pre e post, tr = pre ++ e :: post -> done e = true -> post = [].

(** The traces a loop can have produced, by the way it was left. *)
Definition shaped {P} (out : list (invocation P)) (fl : flow) : Prop :=
  match fl with
  | Next => Forall (fun i => done i = false) out
  | Return =>
      exists pre e, out = pre ++ [e]
                    /\ Forall (fun i => done i = false) pre
                    /\ done e = true
  end.

(** The session's locals once the first fragment of [entry], if there is
    one, has been merged (lines 137-155). *)
Definition after_fragment (entry : ChatCompletion) (st : session) : session :=
  match first_fragment entry with
  | Some toolCall => assemble toolCall st
  | None => st
  end.

(** The session's locals when the name and arguments of a fragment are
    looked at (line 150): the index and the identifier have been dealt with. *)
Definition before_name (toolCall : ToolCall) (st : session) : session :=
  set_id toolCall (flush_on_index_change toolCall st).

(** The session's locals once the in-progress call has been appended
    (line 160). *)
Definition finalized (st : session) : session :=
  {| fn := fn st; toolIndex := toolIndex st;
     toolCalls := append (toolCalls st) (fn st) |}.

(** The payload of the terminator branch (lines 116-122). *)
Definition placeholder_payload : ChatCompletion :=
  {| ccType := None; Choices := placeholder_choices |}.

(** [context.Background()]: never done. *)
Definition ctx_background : Context := fun _ => None.

(** A context cancelled before the session's first poll. *)
Definition ctx_cancelled : Context := fun _ => Some context_Canceled.

(** ** Sample inputs *)

Definition dq : string := String (ascii_of_nat 34) EmptyString.
Definition quoted (s : string) : string := (dq ++ s ++ dq)%string.

(** What [encoding/json] reports for a payload that is not JSON. *)
Definition syntax_error : error := errorString "invalid character".

(** A decoder given by its results on finitely many payloads; any other
    payload is a syntax error and leaves the target as it was. *)
Fixpoint unmarshal_from {T} (table : list (bytes_t * (T * option error)))
  (data : bytes_t) (v : T) : T * option error :=
  match table with
  | [] => (v, Some syntax_error)
  | (d, r) :: rest => if data =? d then r else unmarshal_from rest data v
  end.

Definition choice_with (delta : ChatMessage) (reason : string) : ChatCompletionChoice :=
  {| Delta := delta; Message := zero_ChatMessage; FinishReason := reason |}.

Definition fragment (index : option Z) (id name arguments : string) : ToolCall :=
  {| tcType := "function";
     Index := match index with Some v => Some (own_cell v) | None => None end;
     ID := id;
     Function := {| Name := name; Arguments := arguments |} |}.

(** The first fragments of two parallel calls, with index 0 and index 1. *)
Definition first_call_fragment : ToolCall := fragment (Some 0%Z) "call_a" "f" "".
Definition second_call_fragment : ToolCall := fragment (Some 1%Z) "call_b" "g" "".

(** The fragments of one call: its name, then its arguments in two parts,
    [{"a":] and [1}]. *)
Definition weather_fragments : list ToolCall :=
  [ fragment (Some 0%Z) "" "f" "";
    fragment (Some 0%Z) "" "" ("{" ++ quoted "a" ++ ":")%string;
    fragment (Some 0%Z) "" "" "1}" ].

(** [{"type":"ping","choices":[{"finish_reason":"tool_calls"}]}] *)
Definition ping_finish_json : bytes_t :=
  ("{" ++ quoted "type" ++ ":" ++ quoted "ping" ++ "," ++ quoted "choices" ++ ":[{"
  ++ quoted "finish_reason" ++ ":" ++ quoted "tool_calls" ++ "}]}")%string.
Definition ping_finish_chunk : ChatCompletion :=
  {| ccType := Some "ping";
     Choices := mk_slice [choice_with zero_ChatMessage "tool_calls"] |}.

(** [{"choices":[{"finish_reason":"tool_calls"}]}] *)
Definition finish_json : bytes_t :=
  ("{" ++ quoted "choices" ++ ":[{"
  ++ quoted "finish_reason" ++ ":" ++ quoted "tool_calls" ++ "}]}")%string.
Definition finish_chunk : ChatCompletion :=
  {| ccType := None;
     Choices := mk_slice [choice_with zero_ChatMessage "tool_calls"] |}.

(** [{"choices":[{"delta":{"content":"Hi"}}]}] *)
Definition hi_json : bytes_t :=
  ("{" ++ quoted "choices" ++ ":[{" ++ quoted "delta" ++ ":{"
  ++ quoted "content" ++ ":" ++ quoted "Hi" ++ "}}]}")%string.
Definition hi_chunk : ChatCompletion :=
  {| ccType := None;
     Choices := mk_slice [choice_with {| Content := Some "Hi"; ToolCalls := nil_slice |} ""] |}.

(** [{"choices":[{"finish_reason":"stop"}],"type":5}]: the number does not
    fit the string field [type]; [encoding/json] records the mismatch,
    decodes the other fields and returns the recorded error. *)
Definition mismatch_json : bytes_t :=
  ("{" ++ quoted "choices" ++ ":[{" ++ quoted "finish_reason" ++ ":"
  ++ quoted "stop" ++ "}]," ++ quoted "type" ++ ":5}")%string.
Definition mismatch_chunk : ChatCompletion :=
  {| ccType := None; Choices := mk_slice [choice_with zero_ChatMessage "stop"] |}.
Definition mismatch_error : error :=
  errorString "json: cannot unmarshal number into Go struct field .type of type string".

(** [encoding/json] on the sample payloads. *)
Definition sample_Unmarshal : bytes_t -> ChatCompletion -> ChatCompletion * option error :=
  unmarshal_from
    [ (ping_finish_json, (ping_finish_chunk, None));
      (finish_json, (finish_chunk, None));
      (hi_json, (hi_chunk, None));
      (mismatch_json, (mismatch_chunk, Some mismatch_error)) ].

Definition sample_Unmarshal_event
  : bytes_t -> ResponseStreamEvent -> ResponseStreamEvent * option error :=
  unmarshal_from [].

(** Whether a call has started the stream session. *)
Definition streaming (o : outcome) : bool :=
  match o with
  | Returns _ _ started => started
  | Panics _ => false
  end.

(** [[{"error":{"message":"quota exceeded","code":429}}]]: an error body in
    the array-of-objects variant. *)
Definition quota_json : bytes_t :=
  ("[{" ++ quoted "error" ++ ":{" ++ quoted "message" ++ ":" ++ quoted "quota exceeded"
   ++ "," ++ quoted "code" ++ ":429}}]")%string.
Definition quota_error : GeminiError := {| gMessage := "quota exceeded"; gCode := 429 |}.
Definition quota_response : Response :=
  {| StatusCode := 429; ReadAll := inl quota_json;
     Body := {| lines := [quota_json]; scanErr := None |} |}.

(** [encoding/json] on the sample error bodies: an array does not decode
    into the single-object wrapper, and decodes into the array wrapper, the
    empty array into the empty slice. *)
Definition array_into_struct : error :=
  errorString "json: cannot unmarshal array into Go value".
Definition sample_Unmarshal_errbody : bytes_t -> Error -> Error * option error :=
  unmarshal_from [ (quota_json, (zero_Error, Some array_into_struct));
                   ("[]", (zero_Error, Some array_into_struct)) ].
Definition sample_Unmarshal_gemini
  : bytes_t -> slice GeminiError -> slice GeminiError * option error :=
  unmarshal_from [ (quota_json, (mk_slice [quota_error], None));
                   ("[]", (mk_slice [], None)) ].
Definition sample_Decode_errbody (resp : Response) (v : Error) : Error * option error :=
  match ReadAll resp with
  | inl body => sample_Unmarshal_errbody body v
  | inr e => (v, Some e)
  end.

(** [fmt.Sprintf] on formats without verbs, and renderings of the map of
    [Error.err] that the samples never reach. *)
Definition sample_Sprintf (format : string) : string := format.
Definition sample_Marshal (es : list (string * any)) : bytes_t + error :=
  inr (errorString "json: unsupported value").
Definition sample_Sprintf_v (es : list (string * any)) : string := "map[]".

(** ** Lines the sessions pass over *)

(** The lines the chat session passes over without an invocation: blank
    lines, lines without the data prefix, and data lines that decode into a
    chunk of type "ping". *)
Definition chat_skips
  (json_Unmarshal : bytes_t -> ChatCompletion -> ChatCompletion * option error)
  (b : bytes_t) : bool :=
  (String.length b =? 0)%nat
  || negb (bytes.HasPrefix b StreamData)
  || (negb (bytes.HasSuffix b StreamDone)
      && match json_Unmarshal (bytes.from (String.length StreamData) b)
                 zero_ChatCompletion with
         | (entry, None) => is_ping entry
         | (_, Some _) => false
         end).

(** The lines the responses session passes over: blank lines, [event:]
    lines and lines without the data prefix. *)
Definition responses_skips (b : bytes_t) : bool :=
  (String.length b =? 0)%nat
  || bytes.HasPrefix b "event:"
  || negb (bytes.HasPrefix b "data: ").

(** The chunk a data line decodes into. *)
Definition chunk_of
  (json_Unmarshal : bytes_t -> ChatCompletion -> ChatCompletion * option error)
  (b : bytes_t) : ChatCompletion :=
  fst (json_Unmarshal (bytes.from (String.length StreamData) b) zero_ChatCompletion).

(** Whether the first choice of a chunk reports the finish reason
    "tool_calls". *)
Definition reports_tool_calls (entry : ChatCompletion) : bool :=
  match elems (Choices entry) with
  | c :: _ => FinishReason c =? "tool_calls"
  | [] => false
  end.

(** A data line that carries plain content: it is not the terminator, it
    decodes without error into a chunk that is not a ping, has no tool-call
    fragment in its first delta and does not report "tool_calls". *)
Definition plain_content_line
  (json_Unmarshal : bytes_t -> ChatCompletion -> ChatCompletion * option error)
  (b : bytes_t) : bool :=
  bytes.HasPrefix b StreamData
  && negb (bytes.HasSuffix b StreamDone)
  && match json_Unmarshal (bytes.from (String.length StreamData) b)
               zero_ChatCompletion with
     | (entry, None) =>
         negb (is_ping entry)
         && match first_fragment entry with Some _ => false | None => true end
         && negb (reports_tool_calls entry)
     | (_, Some _) => false
     end.

(** ** Shape of the assembled calls *)

(** The calls of a finalized list: each has the type "function", the first
    has a nil index, every later one holds the address of the cursor. *)
Definition calls_well_formed (tcs : list ToolCall) : Prop :=
  Forall (fun c => tcType c = "function") tcs
  /\ match tcs with
     | [] => True
     | c :: cs => Index c = None /\ Forall (fun c' => Index c' = Some addr_toolIndex) cs
     end.

(** What the loop keeps true of its locals between two lines. *)
Definition assembling (st : session) : Prop :=
  toolCalls st <> nil_slice
  /\ tcType (fn st) = "function"
  /\ calls_well_formed (elems (toolCalls st) ++ [fn st])
  /\ toolIndex st = int_wrap (Z.of_nat (len (toolCalls st))).

(** ** A call and its stream *)

Section Call.

Variable fmt_Sprintf : string -> string.
Variable json_Marshal : list (string * any) -> bytes_t + error.
Variable fmt_Sprintf_v : list (string * any) -> string.
Variable json_Unmarshal_errbody : bytes_t -> Error -> Error * option error.
Variable json_Unmarshal_gemini :
  bytes_t -> slice GeminiError -> slice GeminiError * option error.
Variable json_Decode_errbody : Response -> Error -> Error * option error.
Variable json_Unmarshal : bytes_t -> ChatCompletion -> ChatCompletion * option error.
Variable json_Unmarshal_event :
  bytes_t -> ResponseStreamEvent -> ResponseStreamEvent * option error.

(** [postCBWithContext] together with the session it starts (line 571):
    what the call does and the invocations of [cb] that follow. *)
Definition postCBWithContext_calls (ctx : Context) (sent : Response + error)
  : outcome * list (invocation ChatCompletion) :=
  let o := postCBWithContext fmt_Sprintf json_Marshal fmt_Sprintf_v
             json_Unmarshal_errbody json_Unmarshal_gemini sent in
  match o, sent with
  | Returns _ _ true, inl resp => (o, streamWithCtx json_Unmarshal ctx (Body resp))
  | _, _ => (o, [])
  end.

(** [postCBResponsesWithContext] together with the session it starts
    (line 232). *)
Definition postCBResponsesWithContext_calls (ctx : Context) (sent : Response + error)
  : outcome * list (invocation ResponseStreamEvent) :=
  let o := postCBResponsesWithContext fmt_Sprintf json_Marshal fmt_Sprintf_v
             json_Decode_errbody sent in
  match o, sent with
  | Returns _ _ true, inl resp =>
      (o, streamResponsesWithCtx json_Unmarshal_event ctx (Body resp))
  | _, _ => (o, [])
  end.

(** Lines 502-504 and 178-180: [postCB] and [postCBResponses] pass
    [context.Background()]. *)
Definition postCB_calls (sent : Response + error) :=
  postCBWithContext_calls ctx_background sent.
Definition postCBResponses_calls (sent : Response + error) :=
  postCBResponsesWithContext_calls ctx_background sent.

End Call.

(** ** Requests that return the body *)

(** [fmt.Sprintf("%d", n)]. *)
Definition itoa (n : Z) : string := NilZero.string_of_int (Z.to_int n).

(** Lines 353-373 of [doWithContext] and 474-493 of [postWithContext], which
    are the same code: from the result of [c.httpClient.Do(req)] to the
    returned [(response, err)]; a nil [response] is [None]. *)
Definition read_response (sent : Response + error) : option bytes_t * option error :=
  match sent with
  | inr e => (None, Some e)
  | inl resp =>
      match ReadAll resp with
      | inl response =>
          if negb (isSuccessStatus (StatusCode resp))
          then (Some response,
                Some (errorString ("http status " ++ itoa (StatusCode resp))))
          else (Some response, None)
      | inr e => (None, Some e)
      end
  end.

(** Lines 43-47. *)
Record CommonResponse : Type := {
  crObject : option string;
  crError : option Error;
  crType : option string
}.

Definition zero_CommonResponse : CommonResponse :=
  {| crObject := None; crError := None; crType := None |}.

(** The bytes of a possibly nil [[]byte]. *)
Definition bytes_of (bs : option bytes_t) : bytes_t :=
  match bs with
  | Some b => b
  | None => ""
  end.

(** What a [Create...] call does: it returns, or it panics on a nil
    pointer. *)
Inductive created (R : Type) : Type :=
| Created (response : R) (e : option error)
| nil_dereference.
Arguments Created {R} response e.
Arguments nil_dereference {R}.

Section Create.

Variable fmt_Sprintf : string -> string.
Variable json_Marshal : list (string * any) -> bytes_t + error.
Variable fmt_Sprintf_v : list (string * any) -> string.

(** The response type of the call ([GeneratedImages], [Transcription],
    [Translation]), its zero value and its embedded [CommonResponse]. *)
Variable R : Type.
Variable zero_R : R.
Variable common : R -> CommonResponse.
Variable json_Unmarshal_R : bytes_t -> R -> R * option error.
Variable json_Unmarshal_common :
  bytes_t -> CommonResponse -> CommonResponse * option error.

(** [fmt.Errorf("%s: %s", err, res.Error.err())]; [err()] on a nil [*Error]
    reads [e.Type] (line 75) and panics. *)
Definition wrap_error (e : error) (res : CommonResponse) : created R :=
  match crError res with
  | Some body =>
      Created zero_R
        (Some (errorString
                 (Error_text e ++ ": "
                  ++ Error_text (Error_err fmt_Sprintf json_Marshal fmt_Sprintf_v body))))
  | None => nil_dereference
  end.

(** The handling of the result of [c.post] in [CreateImage] (lines 126-142),
    and, word for word, in [CreateImageEdit], [CreateImageVariation],
    [CreateTranscription] and [CreateTranslation]. *)
Definition create_from (posted : option bytes_t * option error) : created R :=
  match posted with
  | (bs, None) =>
      match json_Unmarshal_R (bytes_of bs) zero_R with
      | (response, None) =>
          match crError (common response) with
          | None => Created response None
          | Some body =>
              Created zero_R (Some (Error_err fmt_Sprintf json_Marshal fmt_Sprintf_v body))
          end
      | (_, Some e) => Created zero_R (Some e)
      end
  | (bs, Some e) =>
      match json_Unmarshal_common (bytes_of bs) zero_CommonResponse with
      | (res, None) => wrap_error e res
      | (_, Some _) => Created zero_R (Some e)
      end
  end.

End Create.

(** ** Parameters with files *)

(** Lines 295-297. *)
Record FileParam : Type := { bs : bytes_t }.

(** A value of a parameter map: a [FileParam] or something else. *)
Inductive param : Type :=
| file_param (f : FileParam)
| plain_param (v : any).

(** Lines 577-584; the list is the map in the order the [range] visits it. *)
Fixpoint hasFileInParams (params : list (string * param)) : bool :=
  match params with
  | [] => false
  | (_, v) :: rest =>
      match v with
      | file_param _ => true
      | plain_param _ => hasFileInParams rest
      end
  end.

(** [strings.Split(s, sep)] for a separator of one byte: the substrings
    between the occurrences of the separator. *)
Fixpoint Split (s : string) (sep : ascii) : list string :=
  match s with
  | EmptyString => [EmptyString]
  | String c s' =>
      if Ascii.eqb c sep then EmptyString :: Split s' sep
      else match Split s' sep with
           | p :: ps => String c p :: ps
           | [] => [String c EmptyString]
           end
  end.

(** [strings.Join(parts, sep)] for a separator of one byte. *)
Fixpoint Join (parts : list string) (sep : ascii) : string :=
  match parts with
  | [] => EmptyString
  | [p] => p
  | p :: ps => (p ++ String sep (Join ps sep))%string
  end.

(** Whether a byte occurs in a string. *)
Fixpoint occurs (c : ascii) (s : string) : bool :=
  match s with
  | EmptyString => false
  | String c' s' => Ascii.eqb c' c || occurs c s'
  end.

Definition slash : ascii := "/"%char.
Definition semicolon : ascii := ";"%char.

(** The renaming of lines 594-601. *)
Definition subtype_extension (subtype : string) : string :=
  if subtype =? "wave" then "wav"
  else if subtype =? "octet-stream" then "mp3"
  else subtype.

Section Extension.

(** [http.DetectContentType]. *)
Variable http_DetectContentType : bytes_t -> string.

(** Lines 589-605. *)
Definition getExtension (data : bytes_t) : string :=
  let types := Split (http_DetectContentType data) slash in
  if (2 <=? List.length types)%nat then
    let splitted := Split (nth 1 types EmptyString) semicolon in
    if (1 <=? List.length splitted)%nat then
      if nth 0 splitted EmptyString =? "wave" then "wav"
      else if nth 0 splitted EmptyString =? "octet-stream" then "mp3"
      else nth 0 splitted EmptyString
    else ""
  else "".

End Extension.

(** A content sniffer for the samples: WAVE audio and anything else. *)
Definition sample_DetectContentType (data : bytes_t) : string :=
  if bytes.HasPrefix data "RIFF" then "audio/wave" else "text/plain; charset=utf-8".

(** A response of status 500 whose body is the empty JSON object, and
    [encoding/json] on that body: no field is set, no error is returned. *)
Definition server_error_response : Response :=
  {| StatusCode := 500; ReadAll := inl "{}";
     Body := {| lines := ["{}"]; scanErr := None |} |}.
Definition sample_Unmarshal_common
  : bytes_t -> CommonResponse -> CommonResponse * option error :=
  unmarshal_from [ ("{}", (zero_CommonResponse, None)) ].

(** Two visits of one parameter map, in different orders. *)
Definition sample_params : list (string * param) :=
  [ ("model", plain_param (any_string "whisper-1"));
    ("file", file_param {| bs := "RIFF" |}) ].
Definition sample_params_reordered : list (string * param) :=
  [ ("file", file_param {| bs := "RIFF" |});
    ("model", plain_param (any_string "whisper-1")) ].

(** A context that is done from the poll of iteration [k] on. *)
Definition ctx_cancelled_at (k : nat) : Context :=
  fun n => if (k <=? n)%nat then Some context_Canceled else None.

(** The identifier the in-progress call holds after some fragments: the
    last non-empty one, or the one it had. *)
Definition last_identifier (fragments : list ToolCall) (id : string) : string :=
  fold_left (fun id toolCall => if ID toolCall =? "" then id else ID toolCall)
            fragments id.

(** ** How a session ends *)

(** The events that end a session before its lines run out. *)
Inductive stop_event : Type :=
| cancellation
| terminator_line
| decode_failure
| finalization
| completion.

(** Whether a line, met with the poll [polled] and the locals [st], is one
    of the events that end the chat session: the cancellation signal is set;
    the line is taken for the terminator; its payload fails to decode; its
    chunk, no ping, reports a finish reason that finalizes. *)
Definition chat_line_event
  (json_Unmarshal : bytes_t -> ChatCompletion -> ChatCompletion * option error)
  (polled : option error) (b : bytes_t) (st : session) : option stop_event :=
  match polled with
  | Some _ => Some cancellation
  | None =>
      if bytes.HasPrefix b StreamData then
        if bytes.HasSuffix b StreamDone then Some terminator_line
        else
          match json_Unmarshal (bytes.from (String.length StreamData) b)
                  zero_ChatCompletion with
          | (_, Some _) => Some decode_failure
          | (entry, None) =>
              if negb (is_ping entry) && finish_reached entry (after_fragment entry st)
              then Some finalization
              else None
          end
      else None
  end.

(** The locals once a line has been dealt with: a chunk that is no ping has
    its first fragment merged, any other line leaves them alone. *)
Definition chat_locals_after
  (json_Unmarshal : bytes_t -> ChatCompletion -> ChatCompletion * option error)
  (b : bytes_t) (st : session) : session :=
  if bytes.HasPrefix b StreamData && negb (bytes.HasSuffix b StreamDone) then
    match json_Unmarshal (bytes.from (String.length StreamData) b)
            zero_ChatCompletion with
    | (entry, None) => if is_ping entry then st else after_fragment entry st
    | (_, Some _) => st
    end
  else st.

(** The first event met on the lines, from iteration [n] and the locals
    [st] on; [None] when the lines run out before any. *)
Fixpoint chat_ending
  (json_Unmarshal : bytes_t -> ChatCompletion -> ChatCompletion * option error)
  (ctx : Context) (n : nat) (ls : list bytes_t) (st : session) : option stop_event :=
  match ls with
  | [] => None
  | b :: rest =>
      match chat_line_event json_Unmarshal (ctx n) b st with
      | Some ev => Some ev
      | None =>
          chat_ending json_Unmarshal ctx (S n) rest (chat_locals_after json_Unmarshal b st)
      end
  end.

(** Whether a line, met with the poll [polled], is one of the events that
    end the responses session: the cancellation signal is set; the payload of
    a data line is the terminator; it fails to decode; it decodes into a
    completion event. *)
Definition responses_line_event
  (json_Unmarshal_event :
     bytes_t -> ResponseStreamEvent -> ResponseStreamEvent * option error)
  (polled : option error) (b : bytes_t) : option stop_event :=
  match polled with
  | Some _ => Some cancellation
  | None =>
      if bytes.HasPrefix b "data: " then
        if bytes.Equal (bytes.TrimPrefix b "data: ") "[DONE]" then Some terminator_line
        else
          match json_Unmarshal_event (bytes.TrimPrefix b "data: ")
                  zero_ResponseStreamEvent with
          | (_, Some _) => Some decode_failure
          | (event, None) =>
              if is_completion_event event then Some completion else None
          end
      else None
  end.

Fixpoint responses_ending
  (json_Unmarshal_event :
     bytes_t -> ResponseStreamEvent -> ResponseStreamEvent * option error)
  (ctx : Context) (n : nat) (ls : list bytes_t) : option stop_event :=
  match ls with
  | [] => None
  | b :: rest =>
      match responses_line_event json_Unmarshal_event (ctx n) b with
      | Some ev => Some ev
      | None => responses_ending json_Unmarshal_event ctx (S n) rest
      end
  end.

(** The number of terminal invocations an ending and the scanner's last
    word call for: one for an event, one for a read error after the last
    line, none when the lines run out with no read error. *)
Definition terminal_invocations_of (e : option stop_event) (read : option error) : nat :=
  match e, read with
  | None, None => 0
  | _, _ => 1
  end.

(** The calls an ending appends to the finalized list: the call in
    progress, at a finalization. *)
Definition appended_at (e : option stop_event) : Z :=
  match e with
  | Some finalization => 1
  | _ => 0
  end.

(** A third tool call, and the arguments of a call numbered 2 that arrive
    after a call numbered 0. *)
Definition third_call_fragment : ToolCall := fragment (Some 2%Z) "call_c" "h" "".
Definition skipping_arguments_fragment : ToolCall := fragment (Some 2%Z) "" "" "{}".

(** The indices a consumer reads from the finalized calls once the session
    has ended: each call's [*Index], where it is not nil. *)
Definition delivered_indices (st : session) : list (option Z) :=
  map (fun c => match Index c with
                | Some p => Some (deref (toolIndex st) p)
                | None => None
                end)
      (elems (toolCalls st)).

(** A response of status 400 whose body is the empty JSON array. *)
Definition empty_array_response : Response :=
  {| StatusCode := 400; ReadAll := inl "[]";
     Body := {| lines := ["[]"]; scanErr := None |} |}.

(** ** String and trace lemmas *)

Lemma HasPrefix_nonempty (b : bytes_t) :
  bytes.HasPrefix b StreamData = true -> (String.length b =? 0)%nat = false.
Proof.
  unfold bytes.HasPrefix. intros H.
  apply andb_prop in H as [Hlen _].
  apply Nat.leb_le in Hlen. simpl in Hlen.
  apply Nat.eqb_neq. lia.
Qed.

Lemma nondone_no_terminal {P} (tr : list (invocation P)) :
  Forall (fun i => done i = false) tr -> terminal_count tr = 0.
Proof.
  unfold terminal_count.
  induction 1 as [|i tr Hi _ IH]; simpl; [reflexivity|].
  rewrite Hi. exact IH.
Qed.

Lemma terminal_count_app {P} (a b : list (invocation P)) :
  terminal_count (a ++ b) = terminal_count a + terminal_count b.
Proof.
  unfold terminal_count. rewrite filter_app, length_app. reflexivity.
Qed.

Lemma shaped_app {P} (a b : list (invocation P)) (fl : flow) :
  shaped a Next -> shaped b fl -> shaped (a ++ b) fl.
Proof.
  destruct fl; simpl; intros Ha Hb.
  - apply Forall_app; split; assumption.
  - destruct Hb as (pre & e & -> & Hpre & He).
    exists (a ++ pre), e. rewrite app_assoc. repeat split; trivial.
    apply Forall_app; split; assumption.
Qed.

Lemma shaped_count {P} (out : list (invocation P)) (fl : flow) :
  shaped out fl ->
  terminal_count out = match fl with Return => 1 | Next => 0 end.
Proof.
  destruct fl; simpl.
  - apply nondone_no_terminal.
  - intros (pre & e & -> & Hpre & He).
    rewrite terminal_count_app, (nondone_no_terminal pre Hpre).
    unfold terminal_count; simpl. rewrite He. reflexivity.
Qed.

Lemma nondone_nothing_after {P} (tr : list (invocation P)) :
  Forall (fun i => done i = false) tr -> nothing_after_terminal tr.
Proof.
  intros Hall pre e post -> He.
  apply Forall_app in Hall as [_ Hall].
  inversion Hall as [|? ? Hd _]; subst. congruence.
Qed.

Lemma terminated_nothing_after {P} (pre : list (invocation P)) (e : invocation P) :
  Forall (fun i => done i = false) pre -> nothing_after_terminal (pre ++ [e]).
Proof.
  intros Hall pre0 e0 post Heq He0.
  destruct (exists_last (l := e0 :: post)) as (l & a & Hl); [discriminate|].
  destruct post as [|x post]; [reflexivity|exfalso].
  destruct l as [|y l]; [discriminate Hl|].
  injection Hl as <- Hpost.
  rewrite Hpost in Heq.
  change (pre ++ [e] = pre0 ++ (e0 :: l) ++ [a]) in Heq.
  rewrite app_assoc in Heq.
  apply app_inj_tail in Heq as [-> _].
  apply Forall_app in Hall as [_ Hall].
  inversion Hall as [|? ? Hd _]; subst. congruence.
Qed.

Lemma shaped_nothing_after {P} (out : list (invocation P)) (fl : flow) :
  shaped out fl -> nothing_after_terminal out.
Proof.
  destruct fl; simpl.
  - apply nondone_nothing_after.
  - intros (pre & e & -> & Hpre & _). apply terminated_nothing_after, Hpre.
Qed.

(** ** The chat session, one line at a time *)

Section ChatLines.

Variable json_Unmarshal : bytes_t -> ChatCompletion -> ChatCompletion * option error.

Lemma scan_loop_return ctx n b rest st out st' :
  iteration json_Unmarshal (ctx n) b st = (out, st', Return) ->
  scan_loop json_Unmarshal ctx n (b :: rest) st = (out, st', Return).
Proof. intros H. simpl. rewrite H. reflexivity. Qed.

Lemma iteration_cancelled e b st :
  iteration json_Unmarshal (Some e) b st
  = ([cb zero_ChatCompletion true (Some e)], st, Return).
Proof. reflexivity. Qed.

Lemma iteration_terminator b st :
  bytes.HasPrefix b StreamData = true ->
  bytes.HasSuffix b StreamDone = true ->
  iteration json_Unmarshal None b st = ([cb placeholder_payload true None], st, Return).
Proof.
  intros Hp Hs. unfold iteration.
  rewrite (HasPrefix_nonempty b Hp), Hp, Hs. reflexivity.
Qed.

Lemma iteration_decoded b st entry :
  bytes.HasPrefix b StreamData = true ->
  bytes.HasSuffix b StreamDone = false ->
  json_Unmarshal (bytes.from (String.length StreamData) b) zero_ChatCompletion
  = (entry, None) ->
  iteration json_Unmarshal None b st = handle_entry entry st.
Proof.
  intros Hp Hs Hd. unfold iteration.
  rewrite (HasPrefix_nonempty b Hp), Hp, Hs, Hd. reflexivity.
Qed.

Lemma iteration_decode_failure b st entry e :
  bytes.HasPrefix b StreamData = true ->
  bytes.HasSuffix b StreamDone = false ->
  json_Unmarshal (bytes.from (String.length StreamData) b) zero_ChatCompletion
  = (entry, Some e) ->
  iteration json_Unmarshal None b st = ([cb entry true (Some e)], st, Return).
Proof.
  intros Hp Hs Hd. unfold iteration.
  rewrite (HasPrefix_nonempty b Hp), Hp, Hs, Hd. reflexivity.
Qed.

Lemma finish_reached_spec entry st c cs :
  elems (Choices entry) = c :: cs ->
  FinishReason c = "tool_calls" \/ (FinishReason c = "stop" /\ ID (fn st) <> "") ->
  finish_reached entry st = true.
Proof.
  intros Hc H. unfold finish_reached. rewrite Hc.
  destruct H as [H | [H Hid]]; rewrite H; simpl.
  - reflexivity.
  - apply String.eqb_neq in Hid. rewrite Hid. reflexivity.
Qed.

Lemma handle_entry_shaped entry st :
  shaped (fst (fst (handle_entry entry st))) (snd (handle_entry entry st)).
Proof.
  unfold handle_entry.
  destruct (is_ping entry); simpl; [constructor|].
  destruct (finish_reached entry _); simpl.
  - eexists [_], _. repeat split. repeat constructor.
  - repeat constructor.
Qed.

Lemma iteration_shaped polled b st :
  shaped (fst (fst (iteration json_Unmarshal polled b st)))
         (snd (iteration json_Unmarshal polled b st)).
Proof.
  unfold iteration.
  destruct polled as [e|]; simpl.
  { exists [], (cb zero_ChatCompletion true (Some e)). repeat split. constructor. }
  destruct (String.length b =? 0)%nat; simpl; [constructor|].
  destruct (bytes.HasPrefix b StreamData); simpl; [|constructor].
  destruct (bytes.HasSuffix b StreamDone); simpl.
  { eexists [], _. repeat split. constructor. }
  destruct (json_Unmarshal _ _) as [entry [e|]]; simpl.
  { exists [], (cb entry true (Some e)). repeat split. constructor. }
  apply handle_entry_shaped.
Qed.

Lemma scan_loop_shaped ctx ls : forall n st,
  shaped (fst (fst (scan_loop json_Unmarshal ctx n ls st)))
         (snd (scan_loop json_Unmarshal ctx n ls st)).
Proof.
  induction ls as [|b rest IH]; intros n st; simpl; [constructor|].
  pose proof (iteration_shaped (ctx n) b st) as Hit.
  destruct (iteration json_Unmarshal (ctx n) b st) as [[out st'] [|]]; simpl in *.
  - specialize (IH (S n) st').
    destruct (scan_loop json_Unmarshal ctx (S n) rest st') as [[out' st''] fl].
    simpl in *. apply shaped_app; assumption.
  - exact Hit.
Qed.

(** The trace of a whole session, by the way its loop was left. *)
Lemma streamWithCtx_trace ctx res :
  streamWithCtx json_Unmarshal ctx res
  = match scan_loop json_Unmarshal ctx 0 (lines res) session_init with
    | (out, _, Return) => out
    | (out, _, Next) =>
        match scanErr res with
        | Some e => out ++ [cb zero_ChatCompletion true (Some e)]
        | None => out
        end
    end.
Proof.
  unfold streamWithCtx, streamWithCtx_run.
  destruct (scan_loop json_Unmarshal ctx 0 (lines res) session_init) as [[out st] [|]];
    [destruct (scanErr res)|]; reflexivity.
Qed.

End ChatLines.

(** ** The responses session, one line at a time *)

Section ResponsesLines.

Variable json_Unmarshal_event :
  bytes_t -> ResponseStreamEvent -> ResponseStreamEvent * option error.

Lemma responses_iteration_shaped polled b :
  shaped (fst (responses_iteration json_Unmarshal_event polled b))
         (snd (responses_iteration json_Unmarshal_event polled b)).
Proof.
  unfold responses_iteration.
  destruct polled as [e|]; simpl.
  { eexists [], _. repeat split. constructor. }
  destruct (String.length b =? 0)%nat; simpl; [constructor|].
  destruct (bytes.HasPrefix b "event:"); simpl; [constructor|].
  destruct (bytes.HasPrefix b "data: "); simpl; [|constructor].
  destruct (bytes.Equal _ _); simpl.
  { eexists [], _. repeat split. constructor. }
  destruct (json_Unmarshal_event _ _) as [event [e|]]; simpl.
  { eexists [], _. repeat split. constructor. }
  destruct (is_completion_event event) eqn:Hd; simpl.
  - exists [], (cb event true None). repeat split. constructor.
  - repeat constructor.
Qed.

Lemma responses_loop_shaped ctx ls : forall n,
  shaped (fst (responses_loop json_Unmarshal_event ctx n ls))
         (snd (responses_loop json_Unmarshal_event ctx n ls)).
Proof.
  induction ls as [|b rest IH]; intros n; simpl; [constructor|].
  pose proof (responses_iteration_shaped (ctx n) b) as Hit.
  destruct (responses_iteration json_Unmarshal_event (ctx n) b) as [out [|]]; simpl in *.
  - specialize (IH (S n)).
    destruct (responses_loop json_Unmarshal_event ctx (S n) rest) as [out' fl].
    simpl in *. apply shaped_app; assumption.
  - exact Hit.
Qed.

End ResponsesLines.

(** The end-to-end scenario: a content line, then the terminator. *)
Example content_then_terminator :
  streamWithCtx sample_Unmarshal ctx_background
    {| lines := [("data: " ++ hi_json)%string; "data: [DONE]"]; scanErr := None |}
  = [cb hi_chunk false None; cb placeholder_payload true None].
Proof. vm_compute. reflexivity. Qed.

(** A read error after the last line is delivered with the empty payload. *)
Example read_error_is_terminal :
  streamWithCtx sample_Unmarshal ctx_background
    {| lines := [""; "event: message"]; scanErr := Some (errorString "unexpected EOF") |}
  = [cb zero_ChatCompletion true (Some (errorString "unexpected EOF"))].
Proof. vm_compute. reflexivity. Qed.

(** ** Finalization on a finish reason *)

(** C1, counterexample: a chunk of type "ping" whose first choice reports the
    finish reason "tool_calls" decodes without error and is skipped: the
    callback is not invoked at all and the loop goes on. *)
Lemma finish_reason_on_ping_is_skipped :
  sample_Unmarshal ping_finish_json zero_ChatCompletion = (ping_finish_chunk, None)
  /\ Choices ping_finish_chunk = mk_slice [choice_with zero_ChatMessage "tool_calls"]
  /\ handle_entry ping_finish_chunk session_init = ([], session_init, Next)
  /\ streamWithCtx sample_Unmarshal ctx_background
       {| lines := [("data: " ++ ping_finish_json)%string]; scanErr := None |} = [].
Proof. repeat split; vm_compute; reflexivity. Qed.

(** C1, as amended: for every decoded chunk that is not of type "ping" and
    whose first choice reports the finish reason "tool_calls", or "stop" while
    the in-progress call (after this chunk's fragment was merged) has a
    non-empty identifier, the in-progress call is appended to the finalized
    list, the list is attached to the message of the chunk's first choice, the
    callback is invoked exactly twice, with (chunk, false, nil) and then with
    the same chunk and (true, nil), and the loop is left whatever lines
    follow. *)
Theorem finish_reason_finalizes
  (json_Unmarshal : bytes_t -> ChatCompletion -> ChatCompletion * option error)
  (ctx : Context) (n : nat) (b : bytes_t) (rest : list bytes_t) (st : session)
  (entry : ChatCompletion) (c : ChatCompletionChoice) (cs : list ChatCompletionChoice) :
  ctx n = None ->
  bytes.HasPrefix b StreamData = true ->
  bytes.HasSuffix b StreamDone = false ->
  json_Unmarshal (bytes.from (String.length StreamData) b) zero_ChatCompletion
  = (entry, None) ->
  is_ping entry = false ->
  Choices entry = mk_slice (c :: cs) ->
  FinishReason c = "tool_calls"
  \/ (FinishReason c = "stop" /\ ID (fn (after_fragment entry st)) <> "") ->
  exists chunk,
    scan_loop json_Unmarshal ctx n (b :: rest) st
    = ([cb chunk false None; cb chunk true None],
       finalized (after_fragment entry st), Return)
    /\ toolCalls (finalized (after_fragment entry st))
       = append (toolCalls (after_fragment entry st)) (fn (after_fragment entry st))
    /\ ccType chunk = ccType entry
    /\ Choices chunk
       = mk_slice
           ({| Delta := Delta c;
               Message := {| Content := Content (Message c);
                             ToolCalls := toolCalls (finalized (after_fragment entry st)) |};
               FinishReason := FinishReason c |} :: cs).
Proof.
  intros Hctx Hp Hs Hd Hping Hc Hfin.
  exists (attach_tool_calls entry (toolCalls (finalized (after_fragment entry st)))).
  split; [|split; [reflexivity|]].
  - apply scan_loop_return. rewrite Hctx.
    rewrite (iteration_decoded json_Unmarshal b st entry Hp Hs Hd).
    unfold handle_entry. rewrite Hping.
    fold (after_fragment entry st).
    rewrite (finish_reached_spec entry (after_fragment entry st) c cs);
      [reflexivity | rewrite Hc; reflexivity | exact Hfin].
  - unfold attach_tool_calls. rewrite Hc. split; reflexivity.
Qed.

Lemma finish_reason_finalizes_witness :
  exists chunk,
    scan_loop sample_Unmarshal ctx_background 0
      [("data: " ++ finish_json)%string; "data: [DONE]"] session_init
    = ([cb chunk false None; cb chunk true None],
       finalized (after_fragment finish_chunk session_init), Return)
    /\ toolCalls (finalized (after_fragment finish_chunk session_init))
       = append (toolCalls (after_fragment finish_chunk session_init))
                (fn (after_fragment finish_chunk session_init))
    /\ ccType chunk = ccType finish_chunk
    /\ Choices chunk
       = mk_slice
           ({| Delta := Delta (choice_with zero_ChatMessage "tool_calls");
               Message :=
                 {| Content := Content (Message (choice_with zero_ChatMessage "tool_calls"));
                    ToolCalls := toolCalls (finalized (after_fragment finish_chunk session_init)) |};
               FinishReason := FinishReason (choice_with zero_ChatMessage "tool_calls") |}
              :: []).
Proof.
  apply (finish_reason_finalizes sample_Unmarshal ctx_background 0
           ("data: " ++ finish_json)%string ["data: [DONE]"] session_init finish_chunk
           (choice_with zero_ChatMessage "tool_calls") []).
  - reflexivity.
  - vm_compute; reflexivity.
  - vm_compute; reflexivity.
  - vm_compute; reflexivity.
  - reflexivity.
  - reflexivity.
  - left; reflexivity.
Defined.

(** ** The terminator *)

(** C2, the code at the failing input: the chat session takes the line
    [data: x[DONE]], whose payload [x[DONE]] is not the terminator token, for
    the terminator, whatever the decoder is: it delivers the placeholder
    payload with [done = true] and no error.  The responses session hands the
    same payload to the decoder. *)
Theorem chat_terminator_is_a_suffix_check
  (json_Unmarshal : bytes_t -> ChatCompletion -> ChatCompletion * option error)
  (json_Unmarshal_event :
     bytes_t -> ResponseStreamEvent -> ResponseStreamEvent * option error) :
  bytes.from (String.length StreamData) "data: x[DONE]" = "x[DONE]"
  /\ bytes.Equal "x[DONE]" StreamDone = false
  /\ streamWithCtx json_Unmarshal ctx_background
       {| lines := ["data: x[DONE]"]; scanErr := None |}
     = [cb placeholder_payload true None]
  /\ streamResponsesWithCtx json_Unmarshal_event ctx_background
       {| lines := ["data: x[DONE]"]; scanErr := None |}
     = match json_Unmarshal_event "x[DONE]" zero_ResponseStreamEvent with
       | (_, Some e) => [cb zero_ResponseStreamEvent true (Some e)]
       | (event, None) => [cb event (is_completion_event event) None]
       end.
Proof.
  repeat split; try (vm_compute; reflexivity).
  unfold streamResponsesWithCtx. cbn.
  destruct (json_Unmarshal_event "x[DONE]" zero_ResponseStreamEvent) as [event [e|]];
    [reflexivity|].
  destruct (is_completion_event event); reflexivity.
Qed.

(** In the responses session the terminator test is an equality on the
    whole payload. *)
Lemma responses_terminator_exact (b : bytes_t) :
  bytes.HasPrefix b "data: " = true ->
  (bytes.Equal (bytes.TrimPrefix b "data: ") "[DONE]" = true <-> b = "data: [DONE]").
Proof.
  intros Hp. unfold bytes.TrimPrefix. rewrite Hp.
  split.
  - intros He. apply String.eqb_eq in He.
    unfold bytes.HasPrefix in Hp. apply andb_prop in Hp as [_ Hp].
    apply String.eqb_eq in Hp.
    destruct b as [|c0 [|c1 [|c2 [|c3 [|c4 [|c5 r]]]]]]; try discriminate Hp.
    cbn in Hp. injection Hp as -> -> -> -> -> -> _.
    unfold bytes.from in He. cbn in He.
    destruct r as [|d0 [|d1 [|d2 [|d3 [|d4 [|d5 [|d6 r]]]]]]]; cbn in He;
      try discriminate He.
    injection He as -> -> -> -> -> ->. reflexivity.
  - intros ->. reflexivity.
Qed.

(** C10: whenever the terminator branch of the chat session fires, from any
    values of the session's locals, the only invocation carries the
    placeholder payload (one choice, whose message holds an empty tool-call
    list that is not nil), [done = true] and a nil error; the locals, and the
    tool calls accumulated in them, are left aside, and the loop is left. *)
Theorem terminator_payload_is_placeholder
  (json_Unmarshal : bytes_t -> ChatCompletion -> ChatCompletion * option error)
  (ctx : Context) (n : nat) (b : bytes_t) (rest : list bytes_t) (st : session) :
  ctx n = None ->
  bytes.HasPrefix b StreamData = true ->
  bytes.HasSuffix b StreamDone = true ->
  scan_loop json_Unmarshal ctx n (b :: rest) st
  = ([cb placeholder_payload true None], st, Return)
  /\ exists c,
       Choices placeholder_payload = mk_slice [c]
       /\ ToolCalls (Message c) = mk_slice []
       /\ ToolCalls (Message c) <> nil_slice.
Proof.
  intros Hctx Hp Hs. split.
  - apply scan_loop_return. rewrite Hctx. apply iteration_terminator; assumption.
  - eexists. split; [reflexivity|]. split; [reflexivity|discriminate].
Qed.

Lemma terminator_payload_is_placeholder_witness :
  scan_loop sample_Unmarshal ctx_background 3
    ["data: [DONE]"; ("data: " ++ hi_json)%string]
    (finalized (assemble (fragment (Some 0%Z) "call_a" "f" "") session_init))
  = ([cb placeholder_payload true None],
     finalized (assemble (fragment (Some 0%Z) "call_a" "f" "") session_init), Return)
  /\ exists c,
       Choices placeholder_payload = mk_slice [c]
       /\ ToolCalls (Message c) = mk_slice []
       /\ ToolCalls (Message c) <> nil_slice.
Proof.
  apply (terminator_payload_is_placeholder sample_Unmarshal ctx_background 3
           "data: [DONE]" [("data: " ++ hi_json)%string]).
  - reflexivity.
  - vm_compute; reflexivity.
  - vm_compute; reflexivity.
Defined.

(** ** Decode failure *)

(** C7, the code at the failing input: on the line
    [data: {"choices":[{"finish_reason":"stop"}],"type":5}] the decoder
    reports a type mismatch after it has filled [entry.Choices]; the terminal
    callback receives that [entry], which is not the empty payload. *)
Theorem decode_failure_delivers_decoded_part :
  sample_Unmarshal mismatch_json zero_ChatCompletion
  = (mismatch_chunk, Some mismatch_error)
  /\ streamWithCtx sample_Unmarshal ctx_background
       {| lines := [("data: " ++ mismatch_json)%string]; scanErr := None |}
     = [cb mismatch_chunk true (Some mismatch_error)]
  /\ mismatch_chunk <> zero_ChatCompletion.
Proof.
  repeat split; try (vm_compute; reflexivity). discriminate.
Qed.

(** ** The tool-call assembler *)

Lemma int_wrap_in_range (z : Z) : in_int_range z -> int_wrap z = z.
Proof.
  unfold in_int_range, int_wrap. intros H.
  rewrite Z.mod_small; lia.
Qed.

Lemma assemble_toolIndex toolCall st :
  toolIndex (assemble toolCall st) = toolIndex (flush_on_index_change toolCall st).
Proof.
  unfold assemble, set_name_or_arguments, set_id.
  destruct (negb (ID toolCall =? "")), (negb (Name (Function toolCall) =? ""));
    try destruct (negb (Arguments (Function toolCall) =? "")); reflexivity.
Qed.

Lemma assemble_toolCalls toolCall st :
  toolCalls (assemble toolCall st) = toolCalls (flush_on_index_change toolCall st).
Proof.
  unfold assemble, set_name_or_arguments, set_id.
  destruct (negb (ID toolCall =? "")), (negb (Name (Function toolCall) =? ""));
    try destruct (negb (Arguments (Function toolCall) =? "")); reflexivity.
Qed.

Lemma index_changed_spec toolCall st p :
  Index toolCall = Some p ->
  deref (toolIndex st) p <> toolIndex st ->
  index_changed (toolIndex st) toolCall = true.
Proof.
  intros Hi Hne. unfold index_changed. rewrite Hi.
  apply Z.eqb_neq in Hne. rewrite Hne. reflexivity.
Qed.

(** What lines 140-144 do for a fragment whose index differs from the
    cursor, and on fragments with index 0 and then index 1. *)
Lemma index_change_flushes (toolCall : ToolCall) (st : session) (p : intptr) :
  Index toolCall = Some p ->
  deref (toolIndex st) p <> toolIndex st ->
  (toolCalls (assemble toolCall st) = append (toolCalls st) (fn st)
   /\ toolIndex (assemble toolCall st) = int_wrap (toolIndex st + 1)
   /\ tcType (fn (assemble toolCall st)) = "function"
   /\ Index (fn (assemble toolCall st)) = Some addr_toolIndex
   /\ ID (fn (assemble toolCall st)) = ID toolCall
   /\ Name (Function (fn (assemble toolCall st))) = Name (Function toolCall)
   /\ Arguments (Function (fn (assemble toolCall st)))
      = (if Name (Function toolCall) =? "" then Arguments (Function toolCall) else ""))
  /\ (deref (toolIndex st) p = (toolIndex st + 1)%Z ->
      in_int_range (deref (toolIndex st) p) ->
      toolIndex (assemble toolCall st) = deref (toolIndex st) p
      /\ deref (toolIndex (assemble toolCall st)) addr_toolIndex = deref (toolIndex st) p)
  /\ (toolCalls (assemble first_call_fragment session_init) = mk_slice []
      /\ toolCalls (assemble second_call_fragment
                      (assemble first_call_fragment session_init))
         = mk_slice [fn (assemble first_call_fragment session_init)]
      /\ elems (toolCalls (finalized (assemble second_call_fragment
                                        (assemble first_call_fragment session_init))))
         = [ {| tcType := "function"; Index := None; ID := "call_a";
                Function := {| Name := "f"; Arguments := "" |} |};
             {| tcType := "function"; Index := Some addr_toolIndex; ID := "call_b";
                Function := {| Name := "g"; Arguments := "" |} |} ]
      /\ toolIndex (assemble second_call_fragment
                      (assemble first_call_fragment session_init)) = 1%Z).
Proof.
  intros Hi Hne.
  pose proof (index_changed_spec toolCall st p Hi Hne) as Hch.
  assert (Hflush : flush_on_index_change toolCall st
                   = {| fn := {| tcType := "function"; Index := Some addr_toolIndex;
                                 ID := ""; Function := zero_ToolCallFunction |};
                        toolIndex := int_wrap (toolIndex st + 1);
                        toolCalls := append (toolCalls st) (fn st) |}).
  { unfold flush_on_index_change. rewrite Hch. reflexivity. }
  assert (Hidx : toolIndex (assemble toolCall st) = int_wrap (toolIndex st + 1)).
  { rewrite assemble_toolIndex, Hflush. reflexivity. }
  split; [|split].
  - split; [rewrite assemble_toolCalls, Hflush; reflexivity|].
    split; [exact Hidx|].
    unfold assemble. rewrite Hflush.
    unfold set_id, set_name_or_arguments.
    destruct (ID toolCall =? "") eqn:Hid; simpl;
      destruct (Name (Function toolCall) =? "") eqn:Hname; simpl;
      try (destruct (Arguments (Function toolCall) =? "") eqn:Hargs; simpl);
      repeat split; trivial;
      try (apply String.eqb_eq in Hid; symmetry; exact Hid);
      try (apply String.eqb_eq in Hname; symmetry; exact Hname);
      try (apply String.eqb_eq in Hargs; symmetry; exact Hargs).
  - intros Hsucc Hrange. simpl. rewrite Hidx, <- Hsucc.
    split; apply int_wrap_in_range; exact Hrange.
  - repeat split; vm_compute; reflexivity.
Qed.

(** C3, the code at the failing input: with the cursor at 0, a fragment
    that carries the index 2 is a fragment with an index differing from the
    cursor; the code moves the cursor to 1, not to 2 (line 142 increments).
    The next fragment of the same call, again with index 2, then differs from
    the cursor once more: the call numbered 2 is flushed with its name and no
    arguments, and its arguments end up in a further, nameless entry.  And as
    every fresh call holds the address of the cursor (line 143), the calls
    numbered 0, 1 and 2 are delivered with the indices nil, 2 and 2. *)
Theorem index_jump_splits_the_call :
  index_changed (toolIndex (assemble first_call_fragment session_init))
    third_call_fragment = true
  /\ toolIndex (assemble third_call_fragment (assemble first_call_fragment session_init))
     = 1%Z
  /\ index_changed
       (toolIndex (assemble third_call_fragment
                     (assemble first_call_fragment session_init)))
       skipping_arguments_fragment = true
  /\ elems (toolCalls
              (finalized
                 (fold_left (fun s t => assemble t s)
                    [first_call_fragment; third_call_fragment;
                     skipping_arguments_fragment] session_init)))
     = [ {| tcType := "function"; Index := None; ID := "call_a";
            Function := {| Name := "f"; Arguments := "" |} |};
         {| tcType := "function"; Index := Some addr_toolIndex; ID := "call_c";
            Function := {| Name := "h"; Arguments := "" |} |};
         {| tcType := "function"; Index := Some addr_toolIndex; ID := "";
            Function := {| Name := ""; Arguments := "{}" |} |} ]
  /\ delivered_indices
       (finalized
          (fold_left (fun s t => assemble t s)
             [first_call_fragment; second_call_fragment; third_call_fragment]
             session_init))
     = [None; Some 2%Z; Some 2%Z].
Proof. repeat split; vm_compute; reflexivity. Qed.

(** C4: for every fragment the assembler processes, a non-empty function
    name overwrites the name of the in-progress call and leaves its
    arguments as they were, whatever arguments text the fragment carries;
    otherwise the fragment's arguments text is concatenated to the end of the
    accumulated arguments, with nothing in between, and the name stays.  So no
    update changes both, and the fragments with name "f", arguments [{"a":]
    and arguments [1}] assemble to the name "f" with arguments [{"a":1}]. *)
Theorem name_xor_arguments (toolCall : ToolCall) (st : session) :
  (if Name (Function toolCall) =? ""
   then Name (Function (fn (assemble toolCall st)))
        = Name (Function (fn (before_name toolCall st)))
        /\ Arguments (Function (fn (assemble toolCall st)))
           = (Arguments (Function (fn (before_name toolCall st)))
              ++ Arguments (Function toolCall))%string
   else Name (Function (fn (assemble toolCall st))) = Name (Function toolCall)
        /\ Arguments (Function (fn (assemble toolCall st)))
           = Arguments (Function (fn (before_name toolCall st))))
  /\ (Name (Function (fn (assemble toolCall st)))
      = Name (Function (fn (before_name toolCall st)))
      \/ Arguments (Function (fn (assemble toolCall st)))
         = Arguments (Function (fn (before_name toolCall st))))
  /\ Function (fn (fold_left (fun s t => assemble t s) weather_fragments session_init))
     = {| Name := "f"; Arguments := ("{" ++ quoted "a" ++ ":1}")%string |}.
Proof.
  assert (Hnil : forall s : string, (s ++ "")%string = s).
  { induction s as [|ch s IH]; simpl; [reflexivity | rewrite IH; reflexivity]. }
  unfold assemble. fold (before_name toolCall st).
  unfold set_name_or_arguments.
  destruct (Name (Function toolCall) =? "") eqn:Hname; simpl.
  - destruct (Arguments (Function toolCall) =? "") eqn:Hargs; simpl.
    + apply String.eqb_eq in Hargs. rewrite Hargs, Hnil.
      repeat split; trivial. left; reflexivity.
    + repeat split; trivial. left; reflexivity.
  - repeat split; trivial. right; reflexivity.
Qed.

(** ** Terminal invocations of whole sessions *)

Lemma chat_trace_shaped json_Unmarshal ctx res :
  shaped (streamWithCtx json_Unmarshal ctx res)
         (match snd (scan_loop json_Unmarshal ctx 0 (lines res) session_init), scanErr res with
          | Next, None => Next
          | _, _ => Return
          end).
Proof.
  rewrite streamWithCtx_trace.
  pose proof (scan_loop_shaped json_Unmarshal ctx (lines res) 0 session_init) as Hs.
  destruct (scan_loop json_Unmarshal ctx 0 (lines res) session_init) as [[out st] [|]];
    simpl in *.
  - destruct (scanErr res) as [e|]; [|exact Hs].
    exists out, (cb zero_ChatCompletion true (Some e)). repeat split. exact Hs.
  - exact Hs.
Qed.

Lemma responses_trace_shaped json_Unmarshal_event ctx res :
  shaped (streamResponsesWithCtx json_Unmarshal_event ctx res)
         (match snd (responses_loop json_Unmarshal_event ctx 0 (lines res)), scanErr res with
          | Next, None => Next
          | _, _ => Return
          end).
Proof.
  unfold streamResponsesWithCtx.
  pose proof (responses_loop_shaped json_Unmarshal_event ctx (lines res) 0) as Hs.
  destruct (responses_loop json_Unmarshal_event ctx 0 (lines res)) as [out [|]];
    simpl in *.
  - destruct (scanErr res) as [e|]; [|exact Hs].
    exists out, (cb zero_ResponseStreamEvent true (Some e)). repeat split. exact Hs.
  - exact Hs.
Qed.

(** C5: for every sequence of lines, every scanner error, every behaviour of
    the cancellation signal and of the decoder, the trace of a session of
    either flavor holds at most one invocation with [done = true], and no
    invocation follows it. *)
Theorem at_most_one_terminal_and_last
  (json_Unmarshal : bytes_t -> ChatCompletion -> ChatCompletion * option error)
  (json_Unmarshal_event :
     bytes_t -> ResponseStreamEvent -> ResponseStreamEvent * option error)
  (ctx : Context) (res : Scanned) :
  (terminal_count (streamWithCtx json_Unmarshal ctx res) <= 1
   /\ nothing_after_terminal (streamWithCtx json_Unmarshal ctx res))
  /\ (terminal_count (streamResponsesWithCtx json_Unmarshal_event ctx res) <= 1
      /\ nothing_after_terminal (streamResponsesWithCtx json_Unmarshal_event ctx res)).
Proof.
  split; split.
  - rewrite (shaped_count _ _ (chat_trace_shaped json_Unmarshal ctx res)).
    destruct (snd _), (scanErr res); simpl; lia.
  - exact (shaped_nothing_after _ _ (chat_trace_shaped json_Unmarshal ctx res)).
  - rewrite (shaped_count _ _ (responses_trace_shaped json_Unmarshal_event ctx res)).
    destruct (snd _), (scanErr res); simpl; lia.
  - exact (shaped_nothing_after _ _ (responses_trace_shaped json_Unmarshal_event ctx res)).
Qed.

(** C6, counterexample: a body that ends after one content line, with no
    terminator and no read error, gets the one content invocation and no
    invocation with [done = true]; an empty body gets no invocation at all. *)
Lemma clean_end_has_no_terminal :
  streamWithCtx sample_Unmarshal ctx_background
    {| lines := [("data: " ++ hi_json)%string]; scanErr := None |}
  = [cb hi_chunk false None]
  /\ terminal_count
       (streamWithCtx sample_Unmarshal ctx_background
          {| lines := [("data: " ++ hi_json)%string]; scanErr := None |}) = 0
  /\ streamResponsesWithCtx sample_Unmarshal_event ctx_background
       {| lines := []; scanErr := None |} = [].
Proof. repeat split; vm_compute; reflexivity. Qed.

Lemma HasPrefix_blank (b : bytes_t) :
  (String.length b =? 0)%nat = true -> bytes.HasPrefix b StreamData = false.
Proof.
  intros H. destruct (bytes.HasPrefix b StreamData) eqn:Hp; [|reflexivity].
  rewrite (HasPrefix_nonempty b Hp) in H. discriminate H.
Qed.

(** What one pass of the chat loop does, by the event the line is. *)
Lemma iteration_by_event json_Unmarshal polled b st :
  match chat_line_event json_Unmarshal polled b st with
  | None =>
      exists out,
        iteration json_Unmarshal polled b st
        = (out, chat_locals_after json_Unmarshal b st, Next)
  | Some finalization =>
      exists out,
        iteration json_Unmarshal polled b st
        = (out, finalized (chat_locals_after json_Unmarshal b st), Return)
  | Some _ => exists out, iteration json_Unmarshal polled b st = (out, st, Return)
  end.
Proof.
  unfold chat_line_event, chat_locals_after, iteration.
  destruct polled as [e|]; [eexists; reflexivity|].
  destruct (bytes.HasPrefix b StreamData) eqn:Hp.
  - rewrite (HasPrefix_nonempty b Hp).
    destruct (bytes.HasSuffix b StreamDone); cbn [negb andb]; [eexists; reflexivity|].
    destruct (json_Unmarshal _ _) as [entry [e|]]; [eexists; reflexivity|].
    unfold handle_entry.
    destruct (is_ping entry); cbn [negb andb]; [eexists; reflexivity|].
    fold (after_fragment entry st).
    destruct (finish_reached entry (after_fragment entry st)); eexists; reflexivity.
  - cbn [andb]. destruct (String.length b =? 0)%nat; eexists; reflexivity.
Qed.

Lemma scan_loop_flow json_Unmarshal ctx ls : forall n st,
  snd (scan_loop json_Unmarshal ctx n ls st)
  = match chat_ending json_Unmarshal ctx n ls st with
    | Some _ => Return
    | None => Next
    end.
Proof.
  induction ls as [|b ls IH]; intros n st; cbn [scan_loop chat_ending]; [reflexivity|].
  pose proof (iteration_by_event json_Unmarshal (ctx n) b st) as Hit.
  destruct (chat_line_event json_Unmarshal (ctx n) b st) as [ev|].
  - destruct ev; destruct Hit as [out ->]; reflexivity.
  - destruct Hit as [out ->]. rewrite <- IH.
    destruct (scan_loop json_Unmarshal ctx (S n) ls (chat_locals_after json_Unmarshal b st))
      as [[out' st'] fl]. reflexivity.
Qed.

Lemma responses_iteration_by_event json_Unmarshal_event polled b :
  snd (responses_iteration json_Unmarshal_event polled b)
  = match responses_line_event json_Unmarshal_event polled b with
    | Some _ => Return
    | None => Next
    end.
Proof.
  unfold responses_line_event, responses_iteration.
  destruct polled as [e|]; [reflexivity|].
  destruct (bytes.HasPrefix b "data: ") eqn:Hp.
  - rewrite (HasPrefix_nonempty b Hp).
    assert (He : bytes.HasPrefix b "event:" = false).
    { unfold bytes.HasPrefix in *. apply andb_prop in Hp as [_ Hp].
      apply String.eqb_eq in Hp.
      destruct b as [|c b]; [discriminate Hp|]. cbn in Hp. injection Hp as -> _.
      rewrite andb_false_iff. right. apply String.eqb_neq. cbn. discriminate. }
    rewrite He.
    destruct (bytes.Equal _ _); [reflexivity|].
    destruct (json_Unmarshal_event _ _) as [event [e|]]; [reflexivity|].
    destruct (is_completion_event event); reflexivity.
  - destruct (String.length b =? 0)%nat; [reflexivity|].
    destruct (bytes.HasPrefix b "event:"); reflexivity.
Qed.

Lemma responses_loop_flow json_Unmarshal_event ctx ls : forall n,
  snd (responses_loop json_Unmarshal_event ctx n ls)
  = match responses_ending json_Unmarshal_event ctx n ls with
    | Some _ => Return
    | None => Next
    end.
Proof.
  induction ls as [|b ls IH]; intros n; cbn [responses_loop responses_ending];
    [reflexivity|].
  pose proof (responses_iteration_by_event json_Unmarshal_event (ctx n) b) as Hit.
  destruct (responses_iteration json_Unmarshal_event (ctx n) b) as [out fl].
  cbn [snd] in Hit. subst fl.
  destruct (responses_line_event json_Unmarshal_event (ctx n) b) as [ev|];
    [reflexivity|].
  rewrite <- IH.
  destruct (responses_loop json_Unmarshal_event ctx (S n) ls) as [out' fl].
  reflexivity.
Qed.

(** C6, as amended: a session of either flavor makes exactly one invocation
    with [done = true] when one of its lines is met with the cancellation
    signal set, is taken for the terminator, fails to decode, or carries a
    finish reason that finalizes (chat flavor) or a completion event
    (responses flavor), or when the scanner reports a read error after the
    last line; when the lines run out with none of these and no read error, it
    makes none. *)
Theorem terminal_count_by_ending
  (json_Unmarshal : bytes_t -> ChatCompletion -> ChatCompletion * option error)
  (json_Unmarshal_event :
     bytes_t -> ResponseStreamEvent -> ResponseStreamEvent * option error)
  (ctx : Context) (res : Scanned) :
  terminal_count (streamWithCtx json_Unmarshal ctx res)
  = terminal_invocations_of
      (chat_ending json_Unmarshal ctx 0 (lines res) session_init) (scanErr res)
  /\ terminal_count (streamResponsesWithCtx json_Unmarshal_event ctx res)
     = terminal_invocations_of
         (responses_ending json_Unmarshal_event ctx 0 (lines res)) (scanErr res).
Proof.
  split.
  - rewrite (shaped_count _ _ (chat_trace_shaped json_Unmarshal ctx res)).
    rewrite scan_loop_flow.
    destruct (chat_ending json_Unmarshal ctx 0 (lines res) session_init),
      (scanErr res); reflexivity.
  - rewrite (shaped_count _ _ (responses_trace_shaped json_Unmarshal_event ctx res)).
    rewrite responses_loop_flow.
    destruct (responses_ending json_Unmarshal_event ctx 0 (lines res)),
      (scanErr res); reflexivity.
Qed.

(** ** Cancellation *)

(** C8, counterexample: when the scanner yields no line and reports no
    error, a signal set before the session starts is never polled: neither
    flavor invokes the callback. *)
Lemma cancelled_empty_body_is_silent :
  ctx_cancelled 0 = Some context_Canceled
  /\ streamWithCtx sample_Unmarshal ctx_cancelled {| lines := []; scanErr := None |} = []
  /\ streamResponsesWithCtx sample_Unmarshal_event ctx_cancelled
       {| lines := []; scanErr := None |} = [].
Proof. repeat split. Qed.

(** C8, as amended: for every stream whose scanner yields at least one line
    and whose cancellation signal is set when the first poll is made, the
    session of either flavor makes exactly one invocation, with the empty
    payload, [done = true] and the error of the context; the assembler's
    locals are as they were initialized and nothing of them is delivered. *)
Theorem cancelled_before_first_line
  (json_Unmarshal : bytes_t -> ChatCompletion -> ChatCompletion * option error)
  (json_Unmarshal_event :
     bytes_t -> ResponseStreamEvent -> ResponseStreamEvent * option error)
  (ctx : Context) (b : bytes_t) (rest : list bytes_t) (read : option error) (e : error) :
  ctx 0 = Some e ->
  streamWithCtx_run json_Unmarshal ctx {| lines := b :: rest; scanErr := read |}
  = ([cb zero_ChatCompletion true (Some e)], session_init)
  /\ streamWithCtx json_Unmarshal ctx {| lines := b :: rest; scanErr := read |}
     = [cb zero_ChatCompletion true (Some e)]
  /\ streamResponsesWithCtx json_Unmarshal_event ctx
       {| lines := b :: rest; scanErr := read |}
     = [cb zero_ResponseStreamEvent true (Some e)].
Proof.
  intros Hctx.
  unfold streamWithCtx, streamWithCtx_run, streamResponsesWithCtx; simpl.
  rewrite Hctx. simpl. repeat split.
Qed.

Lemma cancelled_before_first_line_witness :
  streamWithCtx_run sample_Unmarshal ctx_cancelled
    {| lines := [("data: " ++ hi_json)%string; "data: [DONE]"]; scanErr := None |}
  = ([cb zero_ChatCompletion true (Some context_Canceled)], session_init)
  /\ streamWithCtx sample_Unmarshal ctx_cancelled
       {| lines := [("data: " ++ hi_json)%string; "data: [DONE]"]; scanErr := None |}
     = [cb zero_ChatCompletion true (Some context_Canceled)]
  /\ streamResponsesWithCtx sample_Unmarshal_event ctx_cancelled
       {| lines := [("data: " ++ hi_json)%string; "data: [DONE]"]; scanErr := None |}
     = [cb zero_ResponseStreamEvent true (Some context_Canceled)].
Proof.
  apply (cancelled_before_first_line sample_Unmarshal sample_Unmarshal_event
           ctx_cancelled ("data: " ++ hi_json)%string ["data: [DONE]"] None
           context_Canceled).
  reflexivity.
Defined.

(** ** Responses that are not a success *)

(** C9, the code at the failing inputs.  On a response of status 400 whose
    body is the empty array [[]], the chat flavor finds that the body does
    not decode into the single-object wrapper, decodes it into the array
    wrapper, and indexes the first element of the empty slice (line 562): the
    call panics and returns no error.  On a response of status 429 whose body
    is in the array-of-objects variant, the chat flavor returns the message
    decoded from it, while the responses flavor, which has no such fallback,
    returns a decode failure. *)
Theorem error_bodies_at_failing_inputs :
  (isSuccessStatus (StatusCode empty_array_response) = false
   /\ sample_Unmarshal_errbody "[]" zero_Error = (zero_Error, Some array_into_struct)
   /\ sample_Unmarshal_gemini "[]" (mk_slice []) = (mk_slice [], None)
   /\ postCBWithContext sample_Sprintf sample_Marshal sample_Sprintf_v
        sample_Unmarshal_errbody sample_Unmarshal_gemini (inl empty_array_response)
      = Panics "index out of range [0] with length 0")
  /\ (isSuccessStatus (StatusCode quota_response) = false
      /\ sample_Unmarshal_gemini quota_json (mk_slice [])
         = (mk_slice [quota_error], None)
      /\ postCBWithContext sample_Sprintf sample_Marshal sample_Sprintf_v
           sample_Unmarshal_errbody sample_Unmarshal_gemini (inl quota_response)
         = Returns None (Some (errorString "quota exceeded")) false
      /\ postCBResponsesWithContext sample_Sprintf sample_Marshal sample_Sprintf_v
           sample_Decode_errbody (inl quota_response)
         = Returns None
             (Some (errorString
                      "failed to decode error body: json: cannot unmarshal array into Go value"))
             false).
Proof. repeat split. Qed.

(** ** Loops over more lines *)

Section ChatLoop.

Variable json_Unmarshal : bytes_t -> ChatCompletion -> ChatCompletion * option error.

Lemma scan_loop_app ctx l1 : forall l2 n st,
  scan_loop json_Unmarshal ctx n (l1 ++ l2) st
  = match scan_loop json_Unmarshal ctx n l1 st with
    | (out, st', Return) => (out, st', Return)
    | (out, st', Next) =>
        match scan_loop json_Unmarshal ctx (n + List.length l1) l2 st' with
        | (out', st'', fl) => (out ++ out', st'', fl)
        end
    end.
Proof.
  induction l1 as [|b l1 IH]; intros l2 n st; simpl.
  - rewrite Nat.add_0_r.
    destruct (scan_loop json_Unmarshal ctx n l2 st) as [[out st'] fl]. reflexivity.
  - destruct (iteration json_Unmarshal (ctx n) b st) as [[out st'] [|]]; [|reflexivity].
    rewrite IH.
    destruct (scan_loop json_Unmarshal ctx (S n) l1 st') as [[out1 st1] [|]];
      [|reflexivity].
    replace (n + S (List.length l1)) with (S n + List.length l1) by lia.
    destruct (scan_loop json_Unmarshal ctx (S n + List.length l1) l2 st1)
      as [[out2 st2] fl].
    rewrite app_assoc. reflexivity.
Qed.

Lemma scan_loop_background_shift ls : forall n m st,
  scan_loop json_Unmarshal ctx_background n ls st
  = scan_loop json_Unmarshal ctx_background m ls st.
Proof.
  induction ls as [|b ls IH]; intros n m st; cbn [scan_loop]; [reflexivity|].
  change (ctx_background n) with (@None error).
  change (ctx_background m) with (@None error).
  destruct (iteration json_Unmarshal None b st) as [[out st'] [|]]; [|reflexivity].
  rewrite (IH (S n) (S m)). reflexivity.
Qed.

Lemma iteration_skips b st :
  chat_skips json_Unmarshal b = true ->
  iteration json_Unmarshal None b st = ([], st, Next).
Proof.
  unfold chat_skips, iteration. intros H.
  destruct (String.length b =? 0)%nat; [reflexivity|].
  destruct (bytes.HasPrefix b StreamData); [|reflexivity].
  destruct (bytes.HasSuffix b StreamDone); [discriminate H|].
  simpl in H.
  destruct (json_Unmarshal _ _) as [entry [e|]]; [discriminate H|].
  unfold handle_entry. rewrite H. reflexivity.
Qed.

Lemma scan_loop_without_skipped ls : forall n st,
  scan_loop json_Unmarshal ctx_background n
    (filter (fun b => negb (chat_skips json_Unmarshal b)) ls) st
  = scan_loop json_Unmarshal ctx_background n ls st.
Proof.
  induction ls as [|b ls IH]; intros n st; [reflexivity|].
  cbn [filter].
  destruct (chat_skips json_Unmarshal b) eqn:Hs; cbn [negb].
  - rewrite IH. cbn [scan_loop].
    change (ctx_background n) with (@None error).
    rewrite (iteration_skips b st Hs).
    rewrite (scan_loop_background_shift ls n (S n)).
    destruct (scan_loop json_Unmarshal ctx_background (S n) ls st) as [[out st'] fl].
    reflexivity.
  - cbn [scan_loop].
    destruct (iteration json_Unmarshal (ctx_background n) b st) as [[out st'] [|]];
      [|reflexivity].
    rewrite IH. reflexivity.
Qed.

End ChatLoop.

Section ResponsesLoop.

Variable json_Unmarshal_event :
  bytes_t -> ResponseStreamEvent -> ResponseStreamEvent * option error.

Lemma responses_loop_app ctx l1 : forall l2 n,
  responses_loop json_Unmarshal_event ctx n (l1 ++ l2)
  = match responses_loop json_Unmarshal_event ctx n l1 with
    | (out, Return) => (out, Return)
    | (out, Next) =>
        match responses_loop json_Unmarshal_event ctx (n + List.length l1) l2 with
        | (out', fl) => (out ++ out', fl)
        end
    end.
Proof.
  induction l1 as [|b l1 IH]; intros l2 n; simpl.
  - rewrite Nat.add_0_r.
    destruct (responses_loop json_Unmarshal_event ctx n l2) as [out fl]. reflexivity.
  - destruct (responses_iteration json_Unmarshal_event (ctx n) b) as [out [|]];
      [|reflexivity].
    rewrite IH.
    destruct (responses_loop json_Unmarshal_event ctx (S n) l1) as [out1 [|]];
      [|reflexivity].
    replace (n + S (List.length l1)) with (S n + List.length l1) by lia.
    destruct (responses_loop json_Unmarshal_event ctx (S n + List.length l1) l2)
      as [out2 fl].
    rewrite app_assoc. reflexivity.
Qed.

Lemma responses_loop_background_shift ls : forall n m,
  responses_loop json_Unmarshal_event ctx_background n ls
  = responses_loop json_Unmarshal_event ctx_background m ls.
Proof.
  induction ls as [|b ls IH]; intros n m; cbn [responses_loop]; [reflexivity|].
  change (ctx_background n) with (@None error).
  change (ctx_background m) with (@None error).
  destruct (responses_iteration json_Unmarshal_event None b) as [out [|]];
    [|reflexivity].
  rewrite (IH (S n) (S m)). reflexivity.
Qed.

Lemma responses_iteration_skips b :
  responses_skips b = true ->
  responses_iteration json_Unmarshal_event None b = ([], Next).
Proof.
  unfold responses_skips, responses_iteration. intros H.
  destruct (String.length b =? 0)%nat; [reflexivity|].
  destruct (bytes.HasPrefix b "event:"); [reflexivity|].
  destruct (bytes.HasPrefix b "data: "); [discriminate H|reflexivity].
Qed.

Lemma responses_loop_without_skipped ls : forall n,
  responses_loop json_Unmarshal_event ctx_background n
    (filter (fun b => negb (responses_skips b)) ls)
  = responses_loop json_Unmarshal_event ctx_background n ls.
Proof.
  induction ls as [|b ls IH]; intros n; [reflexivity|].
  cbn [filter].
  destruct (responses_skips b) eqn:Hs; cbn [negb].
  - rewrite IH. cbn [responses_loop].
    change (ctx_background n) with (@None error).
    rewrite (responses_iteration_skips b Hs).
    rewrite (responses_loop_background_shift ls n (S n)).
    destruct (responses_loop json_Unmarshal_event ctx_background (S n) ls) as [out fl].
    reflexivity.
  - cbn [responses_loop].
    destruct (responses_iteration json_Unmarshal_event (ctx_background n) b)
      as [out [|]]; [|reflexivity].
    rewrite IH. reflexivity.
Qed.

End ResponsesLoop.

(** X1: once the loop of the chat session has returned on some lines,
    nothing that follows them in the body is looked at: neither further
    lines nor the scanner's final error change the invocations. *)
Theorem chat_ignores_what_follows_a_return
  (json_Unmarshal : bytes_t -> ChatCompletion -> ChatCompletion * option error)
  (ctx : Context) (l1 l2 : list bytes_t) (read read' : option error) :
  snd (scan_loop json_Unmarshal ctx 0 l1 session_init) = Return ->
  streamWithCtx_run json_Unmarshal ctx {| lines := l1 ++ l2; scanErr := read |}
  = streamWithCtx_run json_Unmarshal ctx {| lines := l1; scanErr := read' |}.
Proof.
  intros Hret. unfold streamWithCtx_run. cbn [lines scanErr].
  rewrite scan_loop_app.
  destruct (scan_loop json_Unmarshal ctx 0 l1 session_init) as [[out st] fl].
  cbn in Hret. subst fl. reflexivity.
Qed.

Lemma chat_ignores_what_follows_a_return_witness :
  streamWithCtx_run sample_Unmarshal ctx_background
    {| lines := ["data: [DONE]"] ++ [("data: " ++ hi_json)%string];
       scanErr := Some syntax_error |}
  = streamWithCtx_run sample_Unmarshal ctx_background
      {| lines := ["data: [DONE]"]; scanErr := None |}.
Proof.
  apply (chat_ignores_what_follows_a_return sample_Unmarshal ctx_background
           ["data: [DONE]"] [("data: " ++ hi_json)%string] (Some syntax_error) None).
  vm_compute. reflexivity.
Defined.

(** X2: the same for the responses session. *)
Theorem responses_ignores_what_follows_a_return
  (json_Unmarshal_event :
     bytes_t -> ResponseStreamEvent -> ResponseStreamEvent * option error)
  (ctx : Context) (l1 l2 : list bytes_t) (read read' : option error) :
  snd (responses_loop json_Unmarshal_event ctx 0 l1) = Return ->
  streamResponsesWithCtx json_Unmarshal_event ctx {| lines := l1 ++ l2; scanErr := read |}
  = streamResponsesWithCtx json_Unmarshal_event ctx {| lines := l1; scanErr := read' |}.
Proof.
  intros Hret. unfold streamResponsesWithCtx. cbn [lines scanErr].
  rewrite responses_loop_app.
  destruct (responses_loop json_Unmarshal_event ctx 0 l1) as [out fl].
  cbn in Hret. subst fl. reflexivity.
Qed.

Lemma responses_ignores_what_follows_a_return_witness :
  streamResponsesWithCtx sample_Unmarshal_event ctx_background
    {| lines := ["data: [DONE]"] ++ ["data: {}"]; scanErr := Some syntax_error |}
  = streamResponsesWithCtx sample_Unmarshal_event ctx_background
      {| lines := ["data: [DONE]"]; scanErr := None |}.
Proof.
  apply (responses_ignores_what_follows_a_return sample_Unmarshal_event ctx_background
           ["data: [DONE]"] ["data: {}"] (Some syntax_error) None).
  vm_compute. reflexivity.
Defined.

(** X3: invocations are made in line order and are never taken back: what
    the loop of either session has delivered for the first lines of a body is
    a prefix of what the session delivers for the whole body. *)
Theorem delivered_prefix_is_kept
  (json_Unmarshal : bytes_t -> ChatCompletion -> ChatCompletion * option error)
  (json_Unmarshal_event :
     bytes_t -> ResponseStreamEvent -> ResponseStreamEvent * option error)
  (ctx : Context) (l1 l2 : list bytes_t) (read : option error) :
  (exists more,
     streamWithCtx json_Unmarshal ctx {| lines := l1 ++ l2; scanErr := read |}
     = fst (fst (scan_loop json_Unmarshal ctx 0 l1 session_init)) ++ more)
  /\ (exists more,
        streamResponsesWithCtx json_Unmarshal_event ctx
          {| lines := l1 ++ l2; scanErr := read |}
        = fst (responses_loop json_Unmarshal_event ctx 0 l1) ++ more).
Proof.
  split.
  - rewrite streamWithCtx_trace. cbn [lines scanErr]. rewrite scan_loop_app.
    destruct (scan_loop json_Unmarshal ctx 0 l1 session_init) as [[out st] [|]];
      cbn [fst].
    + destruct (scan_loop json_Unmarshal ctx (0 + List.length l1) l2 st)
        as [[out' st'] [|]].
      * destruct read as [e|].
        -- exists (out' ++ [cb zero_ChatCompletion true (Some e)]).
           rewrite app_assoc. reflexivity.
        -- exists out'. reflexivity.
      * exists out'. reflexivity.
    + exists []. rewrite app_nil_r. reflexivity.
  - unfold streamResponsesWithCtx. cbn [lines scanErr]. rewrite responses_loop_app.
    destruct (responses_loop json_Unmarshal_event ctx 0 l1) as [out [|]]; cbn [fst].
    + destruct (responses_loop json_Unmarshal_event ctx (0 + List.length l1) l2)
        as [out' [|]].
      * destruct read as [e|].
        -- exists (out' ++ [cb zero_ResponseStreamEvent true (Some e)]).
           rewrite app_assoc. reflexivity.
        -- exists out'. reflexivity.
      * exists out'. reflexivity.
    + exists []. rewrite app_nil_r. reflexivity.
Qed.

(** X4: under a context that is never done, the chat session passes over
    blank lines, lines without the data prefix and chunks of type "ping":
    dropping them from the body changes neither the invocations nor the
    final values of the session's locals. *)
Theorem chat_skipped_lines_do_not_matter
  (json_Unmarshal : bytes_t -> ChatCompletion -> ChatCompletion * option error)
  (ls : list bytes_t) (read : option error) :
  streamWithCtx_run json_Unmarshal ctx_background
    {| lines := filter (fun b => negb (chat_skips json_Unmarshal b)) ls;
       scanErr := read |}
  = streamWithCtx_run json_Unmarshal ctx_background {| lines := ls; scanErr := read |}.
Proof.
  unfold streamWithCtx_run. cbn [lines scanErr].
  rewrite scan_loop_without_skipped. reflexivity.
Qed.

(** X5: under a context that is never done, the responses session passes
    over blank lines, [event:] lines and lines without the data prefix:
    dropping them from the body does not change the invocations. *)
Theorem responses_skipped_lines_do_not_matter
  (json_Unmarshal_event :
     bytes_t -> ResponseStreamEvent -> ResponseStreamEvent * option error)
  (ls : list bytes_t) (read : option error) :
  streamResponsesWithCtx json_Unmarshal_event ctx_background
    {| lines := filter (fun b => negb (responses_skips b)) ls; scanErr := read |}
  = streamResponsesWithCtx json_Unmarshal_event ctx_background
      {| lines := ls; scanErr := read |}.
Proof.
  unfold streamResponsesWithCtx. cbn [lines scanErr].
  rewrite responses_loop_without_skipped. reflexivity.
Qed.

(** ** What every invocation satisfies *)

Section ChatForall.

Variable json_Unmarshal : bytes_t -> ChatCompletion -> ChatCompletion * option error.
Variable P : invocation ChatCompletion -> Prop.
Hypothesis P_iteration : forall polled b st,
  Forall P (fst (fst (iteration json_Unmarshal polled b st))).
Hypothesis P_read_error : forall e, P (cb zero_ChatCompletion true (Some e)).

Lemma scan_loop_Forall ctx ls : forall n st,
  Forall P (fst (fst (scan_loop json_Unmarshal ctx n ls st))).
Proof.
  induction ls as [|b ls IH]; intros n st; cbn [scan_loop]; [constructor|].
  pose proof (P_iteration (ctx n) b st) as Hit.
  destruct (iteration json_Unmarshal (ctx n) b st) as [[out st'] [|]]; cbn in Hit.
  - specialize (IH (S n) st').
    destruct (scan_loop json_Unmarshal ctx (S n) ls st') as [[out' st''] fl].
    cbn in *. apply Forall_app; split; assumption.
  - exact Hit.
Qed.

Lemma streamWithCtx_Forall ctx res :
  Forall P (streamWithCtx json_Unmarshal ctx res).
Proof.
  rewrite streamWithCtx_trace.
  pose proof (scan_loop_Forall ctx (lines res) 0 session_init) as H.
  destruct (scan_loop json_Unmarshal ctx 0 (lines res) session_init) as [[out st] [|]];
    cbn in H; [|exact H].
  destruct (scanErr res) as [e|]; [|exact H].
  apply Forall_app; split; [exact H|]. constructor; [apply P_read_error|constructor].
Qed.

End ChatForall.

Section ResponsesForall.

Variable json_Unmarshal_event :
  bytes_t -> ResponseStreamEvent -> ResponseStreamEvent * option error.
Variable P : invocation ResponseStreamEvent -> Prop.
Hypothesis P_iteration : forall polled b,
  Forall P (fst (responses_iteration json_Unmarshal_event polled b)).
Hypothesis P_read_error : forall e, P (cb zero_ResponseStreamEvent true (Some e)).

Lemma responses_loop_Forall ctx ls : forall n,
  Forall P (fst (responses_loop json_Unmarshal_event ctx n ls)).
Proof.
  induction ls as [|b ls IH]; intros n; cbn [responses_loop]; [constructor|].
  pose proof (P_iteration (ctx n) b) as Hit.
  destruct (responses_iteration json_Unmarshal_event (ctx n) b) as [out [|]];
    cbn in Hit.
  - specialize (IH (S n)).
    destruct (responses_loop json_Unmarshal_event ctx (S n) ls) as [out' fl].
    cbn in *. apply Forall_app; split; assumption.
  - exact Hit.
Qed.

Lemma streamResponsesWithCtx_Forall ctx res :
  Forall P (streamResponsesWithCtx json_Unmarshal_event ctx res).
Proof.
  unfold streamResponsesWithCtx.
  pose proof (responses_loop_Forall ctx (lines res) 0) as H.
  destruct (responses_loop json_Unmarshal_event ctx 0 (lines res)) as [out [|]];
    cbn in H; [|exact H].
  destruct (scanErr res) as [e|]; [|exact H].
  apply Forall_app; split; [exact H|]. constructor; [apply P_read_error|constructor].
Qed.

End ResponsesForall.

Lemma chat_iteration_errors_terminal json_Unmarshal polled b st :
  Forall (fun i : invocation ChatCompletion => err i <> None -> done i = true)
         (fst (fst (iteration json_Unmarshal polled b st))).
Proof.
  unfold iteration.
  destruct polled as [e|]; cbn; [repeat constructor|].
  destruct (String.length b =? 0)%nat; cbn; [constructor|].
  destruct (bytes.HasPrefix b StreamData); cbn; [|constructor].
  destruct (bytes.HasSuffix b StreamDone); cbn; [repeat constructor|].
  destruct (json_Unmarshal _ _) as [entry [e|]]; cbn; [repeat constructor|].
  unfold handle_entry.
  destruct (is_ping entry); cbn; [constructor|].
  destruct (finish_reached entry _); cbn;
    repeat constructor; cbn; congruence.
Qed.

Lemma responses_iteration_law json_Unmarshal_event polled b :
  Forall (fun i : invocation ResponseStreamEvent =>
            (err i <> None -> done i = true /\ payload i = zero_ResponseStreamEvent)
            /\ (done i = false -> err i = None /\ is_completion_event (payload i) = false)
            /\ (is_completion_event (payload i) = true -> done i = true /\ err i = None))
         (fst (responses_iteration json_Unmarshal_event polled b)).
Proof.
  assert (Hone : forall i : invocation ResponseStreamEvent,
             (err i <> None -> done i = true /\ payload i = zero_ResponseStreamEvent) ->
             (done i = false -> err i = None /\ is_completion_event (payload i) = false) ->
             (is_completion_event (payload i) = true -> done i = true /\ err i = None) ->
             Forall (fun i : invocation ResponseStreamEvent =>
               (err i <> None -> done i = true /\ payload i = zero_ResponseStreamEvent)
               /\ (done i = false ->
                   err i = None /\ is_completion_event (payload i) = false)
               /\ (is_completion_event (payload i) = true ->
                   done i = true /\ err i = None)) [i]).
  { intros i H1 H2 H3. constructor; [|constructor]. repeat split; tauto. }
  unfold responses_iteration.
  destruct polled as [e|]; cbn.
  { apply Hone; cbn; intros; try discriminate; split; reflexivity. }
  destruct (String.length b =? 0)%nat; cbn; [constructor|].
  destruct (bytes.HasPrefix b "event:"); cbn; [constructor|].
  destruct (bytes.HasPrefix b "data: "); cbn; [|constructor].
  destruct (bytes.Equal _ _); cbn.
  { apply Hone; cbn; intros; try discriminate; try congruence; split; reflexivity. }
  destruct (json_Unmarshal_event _ _) as [event [e|]]; cbn.
  { apply Hone; cbn; intros; try discriminate; split; reflexivity. }
  destruct (is_completion_event event) eqn:Hc; cbn;
    apply Hone; cbn; intros; try discriminate; try congruence; split; congruence.
Qed.

(** X6: in either session an invocation that carries an error is a
    terminal one, so every invocation with [done = false] has a nil error;
    in the responses session it also carries the empty event. *)
Theorem errors_are_terminal
  (json_Unmarshal : bytes_t -> ChatCompletion -> ChatCompletion * option error)
  (json_Unmarshal_event :
     bytes_t -> ResponseStreamEvent -> ResponseStreamEvent * option error)
  (ctx : Context) (res : Scanned) :
  Forall (fun i => err i <> None -> done i = true)
         (streamWithCtx json_Unmarshal ctx res)
  /\ Forall (fun i => err i <> None ->
                      done i = true /\ payload i = zero_ResponseStreamEvent)
            (streamResponsesWithCtx json_Unmarshal_event ctx res).
Proof.
  split.
  - apply streamWithCtx_Forall.
    + intros. apply chat_iteration_errors_terminal.
    + reflexivity.
  - apply streamResponsesWithCtx_Forall.
    + intros polled b.
      eapply Forall_impl; [|apply responses_iteration_law].
      cbn. intros i (H & _). exact H.
    + intros e _. split; reflexivity.
Qed.

(** X7: in the responses session an event of type [response.completed],
    [response.failed] or [response.cancelled] is always delivered with
    [done = true] and a nil error, and an invocation with [done = false]
    always carries an event of another type. *)
Theorem completion_events_are_terminal
  (json_Unmarshal_event :
     bytes_t -> ResponseStreamEvent -> ResponseStreamEvent * option error)
  (ctx : Context) (res : Scanned) :
  Forall (fun i =>
            (is_completion_event (payload i) = true -> done i = true /\ err i = None)
            /\ (done i = false -> err i = None /\ is_completion_event (payload i) = false))
         (streamResponsesWithCtx json_Unmarshal_event ctx res).
Proof.
  apply streamResponsesWithCtx_Forall.
  - intros polled b.
    eapply Forall_impl; [|apply responses_iteration_law].
    cbn. intros i (_ & H1 & H2). split; assumption.
  - intros e. cbn. split; discriminate.
Qed.

(** ** What the assembler keeps true *)

Lemma int_wrap_succ (z : Z) : int_wrap (int_wrap z + 1) = int_wrap (z + 1).
Proof.
  unfold int_wrap.
  replace ((z + 2 ^ 63) mod 2 ^ 64 - 2 ^ 63 + 1 + 2 ^ 63)%Z
    with ((z + 2 ^ 63) mod 2 ^ 64 + 1)%Z by lia.
  replace (z + 1 + 2 ^ 63)%Z with ((z + 2 ^ 63) + 1)%Z by lia.
  rewrite Zplus_mod_idemp_l. reflexivity.
Qed.

Lemma calls_well_formed_snoc (l : list ToolCall) (x : ToolCall) :
  calls_well_formed l -> l <> [] ->
  tcType x = "function" -> Index x = Some addr_toolIndex ->
  calls_well_formed (l ++ [x]).
Proof.
  intros [Hty Hix] Hne Hx Hi. split.
  - apply Forall_app; split; [exact Hty|]. constructor; [exact Hx|constructor].
  - destruct l as [|c cs]; [contradiction|]. cbn. destruct Hix as [Hc Hcs].
    split; [exact Hc|]. apply Forall_app; split; [exact Hcs|].
    constructor; [exact Hi|constructor].
Qed.

Lemma calls_well_formed_last (l : list ToolCall) (x y : ToolCall) :
  calls_well_formed (l ++ [x]) ->
  tcType y = tcType x -> Index y = Index x ->
  calls_well_formed (l ++ [y]).
Proof.
  intros [Hty Hix] Ht Hi. split.
  - apply Forall_app in Hty as [Hl Hx]. apply Forall_app; split; [exact Hl|].
    inversion Hx; subst. constructor; [congruence|constructor].
  - destruct l as [|c cs]; cbn in *.
    + destruct Hix as [Hx _]. split; [congruence|constructor].
    + destruct Hix as [Hc Hcs]. split; [exact Hc|].
      apply Forall_app in Hcs as [Hcs Hx]. apply Forall_app; split; [exact Hcs|].
      inversion Hx; subst. constructor; [congruence|constructor].
Qed.

Lemma assemble_fn_kind toolCall st :
  tcType (fn (assemble toolCall st)) = tcType (fn (flush_on_index_change toolCall st))
  /\ Index (fn (assemble toolCall st)) = Index (fn (flush_on_index_change toolCall st)).
Proof.
  unfold assemble, set_name_or_arguments, set_id.
  destruct (negb (ID toolCall =? "")), (negb (Name (Function toolCall) =? ""));
    try destruct (negb (Arguments (Function toolCall) =? "")); split; reflexivity.
Qed.

Lemma assembling_init : assembling session_init.
Proof.
  unfold assembling, calls_well_formed. cbn.
  repeat split; try reflexivity; try discriminate; repeat constructor.
Qed.

Lemma flush_assembling toolCall st :
  assembling st -> assembling (flush_on_index_change toolCall st).
Proof.
  intros H. unfold flush_on_index_change.
  destruct (index_changed (toolIndex st) toolCall); [|exact H].
  destruct H as (Hnil & Hty & Hwf & Hidx).
  unfold assembling; cbn [fn toolIndex toolCalls].
  split; [discriminate|]. split; [reflexivity|]. split.
  - change (elems (append (toolCalls st) (fn st)))
      with (elems (toolCalls st) ++ [fn st]).
    apply calls_well_formed_snoc; try reflexivity; [exact Hwf|].
    destruct (elems (toolCalls st)); discriminate.
  - rewrite Hidx, int_wrap_succ. unfold len, append; cbn [elems].
    rewrite length_app; cbn [List.length]. f_equal. lia.
Qed.

Lemma assemble_assembling toolCall st :
  assembling st -> assembling (assemble toolCall st).
Proof.
  intros H. apply (flush_assembling toolCall) in H.
  destruct H as (Hnil & Hty & Hwf & Hidx).
  destruct (assemble_fn_kind toolCall st) as [Ht Hi].
  unfold assembling.
  rewrite assemble_toolCalls, assemble_toolIndex.
  split; [exact Hnil|]. split; [congruence|]. split; [|exact Hidx].
  apply (calls_well_formed_last _ _ _ Hwf Ht Hi).
Qed.

Lemma chat_locals_after_assembling json_Unmarshal b st :
  assembling st -> assembling (chat_locals_after json_Unmarshal b st).
Proof.
  intros H. unfold chat_locals_after.
  destruct (bytes.HasPrefix b StreamData && negb (bytes.HasSuffix b StreamDone));
    [|exact H].
  destruct (json_Unmarshal _ _) as [entry [e|]]; [exact H|].
  destruct (is_ping entry); [exact H|].
  unfold after_fragment. destruct (first_fragment entry);
    [apply assemble_assembling|]; exact H.
Qed.

(** The locals at the end of the loop, by the way the session ends: as the
    finalization leaves them, or as between two lines. *)
Lemma scan_loop_locals json_Unmarshal ctx ls : forall n st,
  assembling st ->
  match chat_ending json_Unmarshal ctx n ls st with
  | Some finalization =>
      exists st0,
        assembling st0
        /\ snd (fst (scan_loop json_Unmarshal ctx n ls st)) = finalized st0
  | _ => assembling (snd (fst (scan_loop json_Unmarshal ctx n ls st)))
  end.
Proof.
  induction ls as [|b ls IH]; intros n st H; cbn [scan_loop chat_ending]; [exact H|].
  pose proof (iteration_by_event json_Unmarshal (ctx n) b st) as Hit.
  pose proof (chat_locals_after_assembling json_Unmarshal b st H) as Hafter.
  destruct (chat_line_event json_Unmarshal (ctx n) b st) as [ev|].
  - destruct ev; destruct Hit as [out ->]; cbn [fst snd]; try exact H.
    exists (chat_locals_after json_Unmarshal b st). split; [exact Hafter|reflexivity].
  - destruct Hit as [out ->].
    specialize (IH (S n) _ Hafter).
    destruct (scan_loop json_Unmarshal ctx (S n) ls (chat_locals_after json_Unmarshal b st))
      as [[out' st'] fl].
    exact IH.
Qed.

Lemma calls_well_formed_init (l : list ToolCall) (x : ToolCall) :
  calls_well_formed (l ++ [x]) -> calls_well_formed l.
Proof.
  intros [Hty Hix]. split.
  - apply Forall_app in Hty as [Hl _]. exact Hl.
  - destruct l as [|c cs]; [exact I|]. cbn in *. destruct Hix as [Hc Hcs].
    split; [exact Hc|]. apply Forall_app in Hcs as [Hcs _]. exact Hcs.
Qed.

Lemma streamWithCtx_run_locals json_Unmarshal ctx res :
  snd (streamWithCtx_run json_Unmarshal ctx res)
  = snd (fst (scan_loop json_Unmarshal ctx 0 (lines res) session_init)).
Proof.
  unfold streamWithCtx_run.
  destruct (scan_loop json_Unmarshal ctx 0 (lines res) session_init) as [[out st] [|]];
    [destruct (scanErr res)|]; reflexivity.
Qed.

(** X8: whatever the lines, the decoder and the cancellation signal, the
    list of finalized calls the chat session holds when it ends is not nil,
    every call in it has the type "function", the first has a nil index and
    every later one holds the address of the cursor, so that all of them
    report the cursor's final value; the in-progress call has the type
    "function"; and the cursor is, modulo 2^64, the length of the list when
    the session ends otherwise than by a finalization, and one less than the
    length when it ends by a finalization. *)
Theorem finalized_calls_are_well_formed
  (json_Unmarshal : bytes_t -> ChatCompletion -> ChatCompletion * option error)
  (ctx : Context) (res : Scanned) :
  toolCalls (snd (streamWithCtx_run json_Unmarshal ctx res)) <> nil_slice
  /\ calls_well_formed (elems (toolCalls (snd (streamWithCtx_run json_Unmarshal ctx res))))
  /\ tcType (fn (snd (streamWithCtx_run json_Unmarshal ctx res))) = "function"
  /\ toolIndex (snd (streamWithCtx_run json_Unmarshal ctx res))
     = int_wrap
         (Z.of_nat (len (toolCalls (snd (streamWithCtx_run json_Unmarshal ctx res))))
          - appended_at (chat_ending json_Unmarshal ctx 0 (lines res) session_init)).
Proof.
  rewrite streamWithCtx_run_locals.
  pose proof (scan_loop_locals json_Unmarshal ctx (lines res) 0 session_init
                assembling_init) as H.
  set (st := snd (fst (scan_loop json_Unmarshal ctx 0 (lines res) session_init))) in *.
  assert (Hgood : assembling st ->
            toolCalls st <> nil_slice
            /\ calls_well_formed (elems (toolCalls st))
            /\ tcType (fn st) = "function"
            /\ toolIndex st = int_wrap (Z.of_nat (len (toolCalls st)) - 0)).
  { intros (Hnil & Hty & Hwf & Hidx).
    split; [exact Hnil|]. split; [exact (calls_well_formed_init _ _ Hwf)|].
    split; [exact Hty|]. rewrite Z.sub_0_r. exact Hidx. }
  destruct (chat_ending json_Unmarshal ctx 0 (lines res) session_init) as [ev|];
    [|exact (Hgood H)].
  destruct ev; try exact (Hgood H).
  destruct H as (st0 & (Hnil & Hty & Hwf & Hidx) & ->).
  unfold finalized, appended_at; cbn [fn toolIndex toolCalls].
  split; [discriminate|]. split; [exact Hwf|]. split; [exact Hty|].
  rewrite Hidx. unfold len, append; cbn [elems].
  rewrite length_app; cbn [List.length]. f_equal. lia.
Qed.

(** ** Plain content *)

Lemma iteration_plain json_Unmarshal b :
  plain_content_line json_Unmarshal b = true ->
  iteration json_Unmarshal None b session_init
  = ([cb (chunk_of json_Unmarshal b) false None], session_init, Next).
Proof.
  unfold plain_content_line, chunk_of. intros H.
  apply andb_prop in H as [H Hd]. apply andb_prop in H as [Hp Hs].
  apply negb_true_iff in Hs.
  destruct (json_Unmarshal (bytes.from (String.length StreamData) b) zero_ChatCompletion)
    as [entry [e|]] eqn:Hdec; [discriminate Hd|].
  apply andb_prop in Hd as [Hd Hfin]. apply andb_prop in Hd as [Hping Hfrag].
  apply negb_true_iff in Hping. apply negb_true_iff in Hfin.
  rewrite (iteration_decoded json_Unmarshal b session_init entry Hp Hs Hdec).
  unfold handle_entry. rewrite Hping.
  destruct (first_fragment entry); [discriminate Hfrag|].
  unfold finish_reached. unfold reports_tool_calls in Hfin.
  destruct (elems (Choices entry)) as [|c cs]; [reflexivity|].
  rewrite Hfin. cbn. rewrite andb_false_r. reflexivity.
Qed.

Lemma scan_loop_plain json_Unmarshal ls : forall n,
  forallb (plain_content_line json_Unmarshal) ls = true ->
  scan_loop json_Unmarshal ctx_background n ls session_init
  = (map (fun b => cb (chunk_of json_Unmarshal b) false None) ls, session_init, Next).
Proof.
  induction ls as [|b ls IH]; intros n H; [reflexivity|].
  cbn [forallb] in H. apply andb_prop in H as [Hb Hls].
  cbn [scan_loop map]. change (ctx_background n) with (@None error).
  rewrite (iteration_plain json_Unmarshal b Hb), (IH (S n) Hls). reflexivity.
Qed.

(** X9: under a context that is never done, a body of plain content lines
    (data lines that decode, without error, into chunks that are no pings,
    carry no tool-call fragment and do not report "tool_calls") is delivered
    chunk by chunk, in order, each exactly as decoded, with [done = false] and
    a nil error; a terminator line after them adds the one terminal
    invocation with the placeholder payload, and without it, with no read
    error, nothing more is delivered. *)
Theorem plain_content_is_delivered_as_decoded
  (json_Unmarshal : bytes_t -> ChatCompletion -> ChatCompletion * option error)
  (ls : list bytes_t) (read : option error) :
  forallb (plain_content_line json_Unmarshal) ls = true ->
  streamWithCtx json_Unmarshal ctx_background
    {| lines := ls ++ ["data: [DONE]"]; scanErr := read |}
  = map (fun b => cb (chunk_of json_Unmarshal b) false None) ls
    ++ [cb placeholder_payload true None]
  /\ streamWithCtx json_Unmarshal ctx_background {| lines := ls; scanErr := None |}
     = map (fun b => cb (chunk_of json_Unmarshal b) false None) ls.
Proof.
  intros H. split.
  - rewrite streamWithCtx_trace. cbn [lines scanErr].
    rewrite scan_loop_app, (scan_loop_plain json_Unmarshal ls 0 H).
    cbn [scan_loop].
    change (ctx_background (0 + List.length ls)) with (@None error).
    rewrite iteration_terminator; reflexivity.
  - rewrite streamWithCtx_trace. cbn [lines scanErr].
    rewrite (scan_loop_plain json_Unmarshal ls 0 H). reflexivity.
Qed.

Lemma plain_content_is_delivered_as_decoded_witness :
  streamWithCtx sample_Unmarshal ctx_background
    {| lines := [("data: " ++ hi_json)%string; ("data: " ++ hi_json)%string]
                ++ ["data: [DONE]"];
       scanErr := None |}
  = map (fun b => cb (chunk_of sample_Unmarshal b) false None)
        [("data: " ++ hi_json)%string; ("data: " ++ hi_json)%string]
    ++ [cb placeholder_payload true None]
  /\ streamWithCtx sample_Unmarshal ctx_background
       {| lines := [("data: " ++ hi_json)%string; ("data: " ++ hi_json)%string];
          scanErr := None |}
     = map (fun b => cb (chunk_of sample_Unmarshal b) false None)
           [("data: " ++ hi_json)%string; ("data: " ++ hi_json)%string].
Proof.
  apply (plain_content_is_delivered_as_decoded sample_Unmarshal
           [("data: " ++ hi_json)%string; ("data: " ++ hi_json)%string] None).
  vm_compute. reflexivity.
Defined.

(** ** A call and the stream it starts *)

(** X10: a call of either flavor gives its caller an error or callbacks,
    never both.  When the request could not be sent, its error is returned
    and the callback is never invoked; when the status is not 2xx, the call
    does not return a nil error and the callback is never invoked; when the
    status is 2xx, the call returns [(nil, nil)] and the invocations are
    those of the session over the body. *)
Theorem error_or_callbacks
  (fmt_Sprintf : string -> string)
  (json_Marshal : list (string * any) -> bytes_t + error)
  (fmt_Sprintf_v : list (string * any) -> string)
  (json_Unmarshal_errbody : bytes_t -> Error -> Error * option error)
  (json_Unmarshal_gemini :
     bytes_t -> slice GeminiError -> slice GeminiError * option error)
  (json_Decode_errbody : Response -> Error -> Error * option error)
  (json_Unmarshal : bytes_t -> ChatCompletion -> ChatCompletion * option error)
  (json_Unmarshal_event :
     bytes_t -> ResponseStreamEvent -> ResponseStreamEvent * option error)
  (ctx : Context) (sent : Response + error) :
  match sent with
  | inr e =>
      postCBWithContext_calls fmt_Sprintf json_Marshal fmt_Sprintf_v
        json_Unmarshal_errbody json_Unmarshal_gemini json_Unmarshal ctx sent
      = (Returns None (Some e) false, [])
      /\ postCBResponsesWithContext_calls fmt_Sprintf json_Marshal fmt_Sprintf_v
           json_Decode_errbody json_Unmarshal_event ctx sent
         = (Returns None (Some e) false, [])
  | inl resp =>
      if isSuccessStatus (StatusCode resp) then
        postCBWithContext_calls fmt_Sprintf json_Marshal fmt_Sprintf_v
          json_Unmarshal_errbody json_Unmarshal_gemini json_Unmarshal ctx sent
        = (Returns None None true, streamWithCtx json_Unmarshal ctx (Body resp))
        /\ postCBResponsesWithContext_calls fmt_Sprintf json_Marshal fmt_Sprintf_v
             json_Decode_errbody json_Unmarshal_event ctx sent
           = (Returns None None true,
              streamResponsesWithCtx json_Unmarshal_event ctx (Body resp))
      else
        (snd (postCBWithContext_calls fmt_Sprintf json_Marshal fmt_Sprintf_v
                json_Unmarshal_errbody json_Unmarshal_gemini json_Unmarshal ctx sent) = []
         /\ forall response,
              fst (postCBWithContext_calls fmt_Sprintf json_Marshal fmt_Sprintf_v
                     json_Unmarshal_errbody json_Unmarshal_gemini json_Unmarshal ctx sent)
              <> Returns response None true
              /\ fst (postCBWithContext_calls fmt_Sprintf json_Marshal fmt_Sprintf_v
                        json_Unmarshal_errbody json_Unmarshal_gemini json_Unmarshal ctx
                        sent)
                 <> Returns response None false)
        /\ exists e,
             postCBResponsesWithContext_calls fmt_Sprintf json_Marshal fmt_Sprintf_v
               json_Decode_errbody json_Unmarshal_event ctx sent
             = (Returns None (Some e) false, [])
  end.
Proof.
  destruct sent as [resp|e]; [|split; reflexivity].
  unfold postCBWithContext_calls, postCBResponsesWithContext_calls,
    postCBWithContext, postCBResponsesWithContext.
  destruct (isSuccessStatus (StatusCode resp)); cbn [negb]; [split; reflexivity|].
  split.
  - destruct (ReadAll resp) as [body|e]; [|split; [reflexivity|split; discriminate]].
    destruct (json_Unmarshal_errbody body zero_Error) as [errbody [e|]];
      [|split; [reflexivity|split; discriminate]].
    destruct (json_Unmarshal_gemini body (mk_slice [])) as [geminiErr [e'|]];
      [split; [reflexivity|split; discriminate]|].
    destruct (elems geminiErr); split; try reflexivity; split; discriminate.
  - destruct (json_Decode_errbody resp zero_Error) as [errbody [e|]];
      eexists; reflexivity.
Qed.

(** ** Requests that return the body *)

Example itoa_status : itoa 404 = "404" /\ itoa 0 = "0" /\ itoa (-1) = "-1".
Proof. repeat split. Qed.

Lemma isSuccessStatus_range (code : Z) :
  isSuccessStatus code = true <-> (200 <= code < 300)%Z.
Proof.
  unfold isSuccessStatus. rewrite andb_true_iff, Z.leb_le, Z.ltb_lt. reflexivity.
Qed.

(** X11: [doWithContext] and [postWithContext] return a nil error exactly
    when the request was sent, the body was read and the status lies in
    200..299, and then they return the body; they return a body together
    with an error exactly when the body was read and the status lies outside
    200..299, and the error then reads [http status N]. *)
Theorem read_response_results (sent : Response + error) :
  (forall response,
     read_response sent = (response, None)
     <-> exists resp body,
           sent = inl resp /\ ReadAll resp = inl body /\ response = Some body
           /\ (200 <= StatusCode resp < 300)%Z)
  /\ (forall body e,
        read_response sent = (Some body, Some e)
        <-> exists resp,
              sent = inl resp /\ ReadAll resp = inl body
              /\ ~ (200 <= StatusCode resp < 300)%Z
              /\ e = errorString ("http status " ++ itoa (StatusCode resp))).
Proof.
  unfold read_response. split.
  - intros response. split.
    + destruct sent as [resp|e]; [|discriminate].
      destruct (ReadAll resp) as [body|e] eqn:Hread; [|discriminate].
      destruct (isSuccessStatus (StatusCode resp)) eqn:Hs; cbn [negb]; [|discriminate].
      intros H. injection H as <-. exists resp, body.
      repeat split; trivial; apply isSuccessStatus_range in Hs; lia.
    + intros (resp & body & -> & Hread & -> & Hrange).
      apply isSuccessStatus_range in Hrange. rewrite Hread, Hrange. reflexivity.
  - intros body e. split.
    + destruct sent as [resp|e']; [|discriminate].
      destruct (ReadAll resp) as [body'|e'] eqn:Hread; [|discriminate].
      destruct (isSuccessStatus (StatusCode resp)) eqn:Hs; cbn [negb]; [discriminate|].
      intros H. injection H as <- <-. exists resp.
      repeat split; trivial.
      intros Hrange. apply isSuccessStatus_range in Hrange. congruence.
    + intros (resp & -> & Hread & Hrange & ->).
      rewrite Hread.
      destruct (isSuccessStatus (StatusCode resp)) eqn:Hs; [|reflexivity].
      apply isSuccessStatus_range in Hs. contradiction.
Qed.

(** X12: the [Create...] calls never return a response together with an
    error.  They return a response with a nil error exactly when the request
    succeeded and the body decoded, without error, into that response with a
    nil [Error] field; with a non-nil error the returned response is the zero
    value; and they panic exactly when the request failed and the bytes it
    returned decode into a [CommonResponse] whose [Error] field is nil. *)
Theorem create_returns_response_or_error
  (fmt_Sprintf : string -> string)
  (json_Marshal : list (string * any) -> bytes_t + error)
  (fmt_Sprintf_v : list (string * any) -> string)
  (R : Type) (zero_R : R) (common : R -> CommonResponse)
  (json_Unmarshal_R : bytes_t -> R -> R * option error)
  (json_Unmarshal_common : bytes_t -> CommonResponse -> CommonResponse * option error)
  (posted : option bytes_t * option error) :
  (forall response,
     create_from fmt_Sprintf json_Marshal fmt_Sprintf_v R zero_R common
       json_Unmarshal_R json_Unmarshal_common posted = Created response None
     <-> snd posted = None
         /\ json_Unmarshal_R (bytes_of (fst posted)) zero_R = (response, None)
         /\ crError (common response) = None)
  /\ (forall response e,
        create_from fmt_Sprintf json_Marshal fmt_Sprintf_v R zero_R common
          json_Unmarshal_R json_Unmarshal_common posted = Created response (Some e)
        -> response = zero_R)
  /\ (create_from fmt_Sprintf json_Marshal fmt_Sprintf_v R zero_R common
         json_Unmarshal_R json_Unmarshal_common posted = nil_dereference
      <-> exists e res,
            snd posted = Some e
            /\ json_Unmarshal_common (bytes_of (fst posted)) zero_CommonResponse
               = (res, None)
            /\ crError res = None).
Proof.
  destruct posted as [data [e|]]; unfold create_from; cbn [fst snd].
  - destruct (json_Unmarshal_common (bytes_of data) zero_CommonResponse)
      as [res [e'|]] eqn:Hd.
    + split; [|split].
      * intros response. split; [discriminate|intros (H & _); discriminate H].
      * intros response e0 H. injection H as <- _. reflexivity.
      * split; [discriminate|]. intros (e0 & res0 & _ & H & _). discriminate H.
    + unfold wrap_error. destruct (crError res) as [body|] eqn:He.
      * split; [|split].
        -- intros response. split; [discriminate|intros (H & _); discriminate H].
        -- intros response e0 H. injection H as <- _. reflexivity.
        -- split; [discriminate|].
           intros (e0 & res0 & _ & H & Hnone). injection H as <-. congruence.
      * split; [|split].
        -- intros response. split; [discriminate|intros (H & _); discriminate H].
        -- intros response e0 H. discriminate H.
        -- split; [|reflexivity]. intros _. exists e, res. repeat split; trivial.
  - destruct (json_Unmarshal_R (bytes_of data) zero_R) as [response0 [e'|]] eqn:Hd.
    + split; [|split].
      * intros response. split; [discriminate|intros (_ & H & _); discriminate H].
      * intros response e0 H. injection H as <- _. reflexivity.
      * split; [discriminate|intros (e0 & res0 & H & _); discriminate H].
    + destruct (crError (common response0)) as [body|] eqn:He.
      * split; [|split].
        -- intros response. split; [discriminate|].
           intros (_ & H & Hnone). injection H as <-. congruence.
        -- intros response e0 H. injection H as <- _. reflexivity.
        -- split; [discriminate|intros (e0 & res0 & H & _); discriminate H].
      * split; [|split].
        -- intros response. split.
           ++ intros H. injection H as <-. repeat split; trivial.
           ++ intros (_ & H & _). injection H as <-. reflexivity.
        -- intros response e0 H. discriminate H.
        -- split; [discriminate|intros (e0 & res0 & H & _); discriminate H].
Qed.

(** X13: a [Create...] call on a response whose status is not 2xx, whose
    body was read and decodes into a [CommonResponse]: when the body has an
    [error] object, the call returns the zero response and an error that reads
    [http status N: ] followed by the text of that error object; when it has
    none, the call panics on the nil [Error]. *)
Theorem create_on_failure_status
  (fmt_Sprintf : string -> string)
  (json_Marshal : list (string * any) -> bytes_t + error)
  (fmt_Sprintf_v : list (string * any) -> string)
  (R : Type) (zero_R : R) (common : R -> CommonResponse)
  (json_Unmarshal_R : bytes_t -> R -> R * option error)
  (json_Unmarshal_common : bytes_t -> CommonResponse -> CommonResponse * option error)
  (resp : Response) (body : bytes_t) (res : CommonResponse) :
  isSuccessStatus (StatusCode resp) = false ->
  ReadAll resp = inl body ->
  json_Unmarshal_common body zero_CommonResponse = (res, None) ->
  create_from fmt_Sprintf json_Marshal fmt_Sprintf_v R zero_R common
    json_Unmarshal_R json_Unmarshal_common (read_response (inl resp))
  = match crError res with
    | Some errbody =>
        Created zero_R
          (Some (errorString
                   (("http status " ++ itoa (StatusCode resp)) ++ ": "
                    ++ Error_text (Error_err fmt_Sprintf json_Marshal fmt_Sprintf_v
                                     errbody))))
    | None => nil_dereference
    end.
Proof.
  intros Hs Hread Hd.
  unfold read_response. rewrite Hread, Hs. cbn [negb].
  unfold create_from. cbn [bytes_of]. rewrite Hd.
  unfold wrap_error. destruct (crError res); reflexivity.
Qed.

Lemma create_on_failure_status_witness :
  create_from sample_Sprintf sample_Marshal sample_Sprintf_v CommonResponse
    zero_CommonResponse (fun r => r) sample_Unmarshal_common sample_Unmarshal_common
    (read_response (inl server_error_response))
  = nil_dereference.
Proof.
  apply (create_on_failure_status sample_Sprintf sample_Marshal sample_Sprintf_v
           CommonResponse zero_CommonResponse (fun r => r) sample_Unmarshal_common
           sample_Unmarshal_common server_error_response "{}" zero_CommonResponse).
  - reflexivity.
  - reflexivity.
  - reflexivity.
Defined.

(** ** Parameters with files *)

Lemma hasFileInParams_In (params : list (string * param)) :
  hasFileInParams params = true <-> exists k f, In (k, file_param f) params.
Proof.
  induction params as [|[k v] rest IH]; cbn.
  - split; [discriminate | intros (k & f & [])].
  - destruct v as [f|v].
    + split; [intros _; exists k, f; left; reflexivity | reflexivity].
    + rewrite IH. split.
      * intros (k' & f & H). exists k', f. right; exact H.
      * intros (k' & f & [H|H]); [discriminate H | exists k', f; exact H].
Qed.

(** X14: [hasFileInParams] answers true exactly when some value of the map
    is a [FileParam], and its answer does not depend on the order in which
    the [range] visits the map. *)
Theorem hasFileInParams_order_independent (p q : list (string * param)) :
  Permutation p q ->
  hasFileInParams p = hasFileInParams q
  /\ (hasFileInParams p = true <-> exists k f, In (k, file_param f) q).
Proof.
  intros Hperm.
  assert (Hpq : hasFileInParams p = true <-> exists k f, In (k, file_param f) q).
  { rewrite hasFileInParams_In. split; intros (k & f & Hin); exists k, f.
    - exact (Permutation_in _ Hperm Hin).
    - exact (Permutation_in _ (Permutation_sym Hperm) Hin). }
  split; [|exact Hpq].
  rewrite <- hasFileInParams_In in Hpq.
  destruct (hasFileInParams p), (hasFileInParams q); trivial.
  - symmetry. apply Hpq. reflexivity.
  - apply Hpq. reflexivity.
Qed.

Lemma hasFileInParams_order_independent_witness :
  hasFileInParams sample_params = hasFileInParams sample_params_reordered
  /\ (hasFileInParams sample_params = true
      <-> exists k f, In (k, file_param f) sample_params_reordered).
Proof.
  apply (hasFileInParams_order_independent sample_params sample_params_reordered).
  apply perm_swap.
Defined.

(** ** The extension of a file *)

Lemma append_empty (s : string) : (s ++ "")%string = s.
Proof. induction s as [|c s IH]; cbn; [reflexivity | rewrite IH; reflexivity]. Qed.

Lemma Split_not_nil (s : string) (sep : ascii) : Split s sep <> [].
Proof.
  destruct s as [|c s]; cbn; [discriminate|].
  destruct (Ascii.eqb c sep); [discriminate|].
  destruct (Split s sep); discriminate.
Qed.

(** The parts of a string, joined by the separator, are the string. *)
Lemma Join_Split (s : string) (sep : ascii) : Join (Split s sep) sep = s.
Proof.
  induction s as [|c s IH]; [reflexivity|].
  cbn [Split]. destruct (Ascii.eqb c sep) eqn:Hc.
  - apply Ascii.eqb_eq in Hc. subst c.
    pose proof (Split_not_nil s sep) as Hne.
    destruct (Split s sep) as [|p ps]; [contradiction|].
    cbn [Join]. cbn [Join] in IH. rewrite IH. reflexivity.
  - pose proof (Split_not_nil s sep) as Hne.
    destruct (Split s sep) as [|p ps]; [contradiction|].
    destruct ps as [|p' ps].
    + cbn [Join] in *. rewrite IH. reflexivity.
    + cbn [Join] in *. cbn. rewrite IH. reflexivity.
Qed.

Lemma Split_parts_without (d sep : ascii) (s : string) :
  (d = sep \/ occurs d s = false) ->
  Forall (fun p => occurs d p = false) (Split s sep).
Proof.
  induction s as [|c s IH]; intros H; cbn [Split].
  - repeat constructor.
  - destruct (Ascii.eqb c sep) eqn:Hc.
    + constructor; [reflexivity|]. apply IH.
      destruct H as [H|H]; [left; exact H|right].
      cbn in H. apply orb_false_elim in H as [_ H]. exact H.
    + assert (Hcd : Ascii.eqb c d = false).
      { destruct H as [->|H]; [exact Hc|].
        cbn in H. apply orb_false_elim in H as [H _]. exact H. }
      assert (IH' : Forall (fun p => occurs d p = false) (Split s sep)).
      { apply IH. destruct H as [H|H]; [left; exact H|right].
        cbn in H. apply orb_false_elim in H as [_ H]. exact H. }
      destruct (Split s sep) as [|p ps].
      * constructor; [cbn; rewrite Hcd; reflexivity|constructor].
      * inversion IH' as [|? ? Hp Hps]; subst.
        constructor; [cbn; rewrite Hcd, Hp; reflexivity|exact Hps].
Qed.

Lemma nth_Forall {A} (P : A -> Prop) (l : list A) (n : nat) (d : A) :
  Forall P l -> P d -> P (nth n l d).
Proof.
  intros Hl Hd. revert n.
  induction Hl as [|x l Hx _ IH]; intros [|n]; cbn; auto.
Qed.

Lemma Split_append (a b : string) (sep : ascii) :
  occurs sep a = false ->
  Split (a ++ b) sep
  = match Split b sep with
    | p :: ps => (a ++ p)%string :: ps
    | [] => [a]
    end.
Proof.
  induction a as [|c a IH]; intros H.
  - cbn. destruct (Split b sep) eqn:Hb; [|reflexivity].
    exfalso. exact (Split_not_nil _ _ Hb).
  - cbn in H. apply orb_false_elim in H as [Hc Ha].
    cbn [String.append Split]. rewrite Hc, (IH Ha).
    pose proof (Split_not_nil b sep) as Hne.
    destruct (Split b sep); [contradiction|reflexivity].
Qed.

(** X15: whatever [http.DetectContentType] answers, the extension
    [getExtension] returns contains neither a slash nor a semicolon. *)
Theorem getExtension_has_no_separator
  (http_DetectContentType : bytes_t -> string) (data : bytes_t) :
  occurs slash (getExtension http_DetectContentType data) = false
  /\ occurs semicolon (getExtension http_DetectContentType data) = false.
Proof.
  unfold getExtension.
  set (types := Split (http_DetectContentType data) slash).
  set (subtype := nth 1 types EmptyString).
  set (h := nth 0 (Split subtype semicolon) EmptyString).
  assert (Hsub : occurs slash subtype = false).
  { apply nth_Forall; [|reflexivity].
    apply Split_parts_without. left; reflexivity. }
  assert (Hh1 : occurs slash h = false).
  { apply nth_Forall; [|reflexivity].
    apply Split_parts_without. right; exact Hsub. }
  assert (Hh2 : occurs semicolon h = false).
  { apply nth_Forall; [|reflexivity].
    apply Split_parts_without. left; reflexivity. }
  destruct (2 <=? List.length types)%nat; [|split; reflexivity].
  destruct (1 <=? List.length (Split subtype semicolon))%nat; [|split; reflexivity].
  destruct (h =? "wave"); [split; reflexivity|].
  destruct (h =? "octet-stream"); [split; reflexivity|].
  split; assumption.
Qed.

(** X16: when the detected content type is [type/subtype], possibly
    followed by [;] and parameters, [getExtension] returns the subtype, with
    "wave" renamed to "wav" and "octet-stream" to "mp3", and nothing of the
    parameters. *)
Theorem getExtension_is_the_subtype
  (http_DetectContentType : bytes_t -> string) (data : bytes_t)
  (type subtype rest : string) :
  http_DetectContentType data = (type ++ String slash (subtype ++ rest))%string ->
  occurs slash type = false ->
  occurs slash subtype = false ->
  occurs semicolon subtype = false ->
  rest = EmptyString \/ (exists parameters, rest = String semicolon parameters) ->
  getExtension http_DetectContentType data = subtype_extension subtype.
Proof.
  intros Hdet Ht Hs1 Hs2 Hrest.
  assert (Hhead : exists tail,
             nth 0 (Split (subtype ++ rest) slash) EmptyString
             = (subtype ++ tail)%string
             /\ (tail = EmptyString \/ exists q, tail = String semicolon q)).
  { rewrite (Split_append subtype rest slash Hs1).
    destruct Hrest as [->|(parameters & ->)].
    - exists EmptyString. split; [reflexivity|left; reflexivity].
    - cbn [Split].
      change (Ascii.eqb semicolon slash) with false. cbn iota.
      pose proof (Split_not_nil parameters slash) as Hne.
      destruct (Split parameters slash) as [|q qs]; [contradiction|].
      exists (String semicolon q). split; [reflexivity|right; exists q; reflexivity]. }
  destruct Hhead as (tail & Hhead & Htail).
  assert (Hfirst : nth 0 (Split (subtype ++ tail) semicolon) EmptyString = subtype).
  { rewrite (Split_append subtype tail semicolon Hs2).
    destruct Htail as [->|(q & ->)].
    - cbn. apply append_empty.
    - cbn [Split]. rewrite Ascii.eqb_refl. cbn. apply append_empty. }
  unfold getExtension. rewrite Hdet.
  rewrite (Split_append type (String slash (subtype ++ rest)) slash Ht).
  cbn [Split]. rewrite Ascii.eqb_refl.
  pose proof (Split_not_nil (subtype ++ rest) slash) as Hne.
  destruct (Split (subtype ++ rest) slash) as [|p ps] eqn:Hsplit; [contradiction|].
  cbn [List.length nth Nat.leb]. cbn [nth] in Hhead. subst p.
  rewrite Hfirst.
  pose proof (Split_not_nil (subtype ++ tail) semicolon) as Hne'.
  destruct (Split (subtype ++ tail) semicolon) as [|p' ps'] eqn:Hsplit';
    [contradiction|].
  cbn [List.length Nat.leb]. reflexivity.
Qed.

Lemma getExtension_is_the_subtype_witness :
  getExtension sample_DetectContentType "hello" = subtype_extension "plain"
  /\ getExtension sample_DetectContentType "RIFF....WAVE" = "wav".
Proof.
  split.
  - apply (getExtension_is_the_subtype sample_DetectContentType "hello"
             "text" "plain" "; charset=utf-8").
    + reflexivity.
    + reflexivity.
    + reflexivity.
    + reflexivity.
    + right. exists " charset=utf-8". reflexivity.
  - apply (getExtension_is_the_subtype sample_DetectContentType "RIFF....WAVE"
             "audio" "wave" "").
    + reflexivity.
    + reflexivity.
    + reflexivity.
    + reflexivity.
    + left. reflexivity.
Defined.

(** ** Fragments of one call *)

Lemma assemble_same_call toolCall st :
  index_changed (toolIndex st) toolCall = false ->
  Name (Function toolCall) = "" ->
  toolCalls (assemble toolCall st) = toolCalls st
  /\ toolIndex (assemble toolCall st) = toolIndex st
  /\ tcType (fn (assemble toolCall st)) = tcType (fn st)
  /\ Index (fn (assemble toolCall st)) = Index (fn st)
  /\ Name (Function (fn (assemble toolCall st))) = Name (Function (fn st))
  /\ Arguments (Function (fn (assemble toolCall st)))
     = (Arguments (Function (fn st)) ++ Arguments (Function toolCall))%string
  /\ ID (fn (assemble toolCall st)) = (if ID toolCall =? "" then ID (fn st) else ID toolCall).
Proof.
  intros Hidx Hname.
  unfold assemble, flush_on_index_change. rewrite Hidx.
  unfold set_name_or_arguments, set_id. rewrite Hname. cbn [String.eqb negb].
  destruct (ID toolCall =? ""); cbn [negb];
    destruct (Arguments (Function toolCall) =? "") eqn:Ha; cbn [negb];
    repeat split; trivial;
    apply String.eqb_eq in Ha; rewrite Ha, append_empty; reflexivity.
Qed.

(** X17: fragments that belong to the call in progress (no index, or the
    cursor's index) and carry no name leave the finalized list, the cursor
    and the call's name alone; the call's arguments become the old arguments
    followed by the fragments' arguments texts, in arrival order and with
    nothing in between, and its identifier becomes the last non-empty
    identifier among the fragments, if there is one. *)
Theorem arguments_accumulate_in_order (fragments : list ToolCall) (st : session) :
  Forall (fun toolCall =>
            index_changed (toolIndex st) toolCall = false
            /\ Name (Function toolCall) = "") fragments ->
  toolCalls (fold_left (fun s t => assemble t s) fragments st) = toolCalls st
  /\ toolIndex (fold_left (fun s t => assemble t s) fragments st) = toolIndex st
  /\ Name (Function (fn (fold_left (fun s t => assemble t s) fragments st)))
     = Name (Function (fn st))
  /\ Arguments (Function (fn (fold_left (fun s t => assemble t s) fragments st)))
     = fold_left String.append (map (fun t => Arguments (Function t)) fragments)
                 (Arguments (Function (fn st)))
  /\ ID (fn (fold_left (fun s t => assemble t s) fragments st))
     = last_identifier fragments (ID (fn st)).
Proof.
  revert st. induction fragments as [|t ts IH]; intros st H.
  - repeat split.
  - inversion H as [|? ? [Hidx Hname] Hts]; subst.
    destruct (assemble_same_call t st Hidx Hname)
      as (Hcalls & Hcursor & _ & _ & Hn & Hargs & Hid).
    assert (Hts' : Forall (fun toolCall =>
                     index_changed (toolIndex (assemble t st)) toolCall = false
                     /\ Name (Function toolCall) = "") ts).
    { rewrite Hcursor. exact Hts. }
    destruct (IH (assemble t st) Hts') as (H1 & H2 & H3 & H4 & H5).
    cbn [fold_left map]. unfold last_identifier in *. cbn [fold_left].
    rewrite H1, H2, H3, H4, H5, Hcalls, Hcursor, Hn, Hargs, Hid.
    repeat split.
Qed.

Lemma arguments_accumulate_in_order_witness :
  Arguments (Function (fn (fold_left (fun s t => assemble t s)
                             [ fragment (Some 0%Z) "" "" ("{" ++ quoted "a" ++ ":")%string;
                               fragment None "call_a" "" "1}" ]
                             (assemble (fragment (Some 0%Z) "" "f" "") session_init))))
  = ("{" ++ quoted "a" ++ ":1}")%string.
Proof.
  destruct (arguments_accumulate_in_order
              [ fragment (Some 0%Z) "" "" ("{" ++ quoted "a" ++ ":")%string;
                fragment None "call_a" "" "1}" ]
              (assemble (fragment (Some 0%Z) "" "f" "") session_init))
    as (_ & _ & _ & Hargs & _).
  - repeat constructor.
  - rewrite Hargs. reflexivity.
Defined.

(** ** Cancellation between two lines *)

(** X18: when the cancellation signal is observed at a line in the middle
    of a stream, after lines on which the loop has not returned, either
    session adds one invocation to those already made, with the empty
    payload, [done = true] and the context's error, and stops; the chat
    session keeps its locals as they were, so the calls assembled so far are
    not delivered. *)
Theorem cancellation_between_lines
  (json_Unmarshal : bytes_t -> ChatCompletion -> ChatCompletion * option error)
  (json_Unmarshal_event :
     bytes_t -> ResponseStreamEvent -> ResponseStreamEvent * option error)
  (ctx : Context) (l1 : list bytes_t) (b : bytes_t) (l2 : list bytes_t)
  (read : option error) (e : error) :
  ctx (List.length l1) = Some e ->
  (snd (scan_loop json_Unmarshal ctx 0 l1 session_init) = Next ->
   streamWithCtx_run json_Unmarshal ctx {| lines := l1 ++ b :: l2; scanErr := read |}
   = (fst (fst (scan_loop json_Unmarshal ctx 0 l1 session_init))
      ++ [cb zero_ChatCompletion true (Some e)],
      snd (fst (scan_loop json_Unmarshal ctx 0 l1 session_init))))
  /\ (snd (responses_loop json_Unmarshal_event ctx 0 l1) = Next ->
      streamResponsesWithCtx json_Unmarshal_event ctx
        {| lines := l1 ++ b :: l2; scanErr := read |}
      = fst (responses_loop json_Unmarshal_event ctx 0 l1)
        ++ [cb zero_ResponseStreamEvent true (Some e)]).
Proof.
  intros Hctx. split; intros Hnext.
  - unfold streamWithCtx_run. cbn [lines scanErr]. rewrite scan_loop_app.
    destruct (scan_loop json_Unmarshal ctx 0 l1 session_init) as [[out st] fl].
    cbn in Hnext. subst fl. cbn [scan_loop fst snd Nat.add].
    rewrite Hctx. reflexivity.
  - unfold streamResponsesWithCtx. cbn [lines scanErr]. rewrite responses_loop_app.
    destruct (responses_loop json_Unmarshal_event ctx 0 l1) as [out fl].
    cbn in Hnext. subst fl. cbn [responses_loop fst Nat.add].
    rewrite Hctx. reflexivity.
Qed.

Lemma cancellation_between_lines_witness :
  streamWithCtx_run sample_Unmarshal (ctx_cancelled_at 1)
    {| lines := [("data: " ++ hi_json)%string] ++ "data: [DONE]" :: [];
       scanErr := None |}
  = ([cb hi_chunk false None; cb zero_ChatCompletion true (Some context_Canceled)],
     session_init)
  /\ streamResponsesWithCtx sample_Unmarshal_event (ctx_cancelled_at 1)
       {| lines := ["event: message"] ++ "data: [DONE]" :: []; scanErr := None |}
     = [cb zero_ResponseStreamEvent true (Some context_Canceled)].
Proof.
  destruct (cancellation_between_lines sample_Unmarshal sample_Unmarshal_event
              (ctx_cancelled_at 1) [("data: " ++ hi_json)%string] "data: [DONE]" []
              None context_Canceled) as [Hchat _]; [reflexivity|].
  destruct (cancellation_between_lines sample_Unmarshal sample_Unmarshal_event
              (ctx_cancelled_at 1) ["event: message"] "data: [DONE]" []
              None context_Canceled) as [_ Hresp]; [reflexivity|].
  split.
  - etransitivity; [apply Hchat; vm_compute; reflexivity|]. vm_compute. reflexivity.
  - etransitivity; [apply Hresp; vm_compute; reflexivity|]. vm_compute. reflexivity.
Defined.
